(** * CisspTest: the quiz engine of [app.py]

    A shallow embedding of the data/session core of [src/app.py]: question
    normalisation, import and upsert, session creation, scoring and the
    wrong-answer store, followed by the properties the specification states
    about them.

    Conventions of the embedding.
    - Python [str] is [string]: a sequence of 8-bit characters.  The model is
      exact on ASCII text; [strip], [lower] and [upper] leave the characters
      above 127 alone.
    - Python [int] is [Z].  [bool] is a subclass of [int] in Python: where
      the code tests [isinstance(x, int)] a JSON boolean passes, and it
      compares (and hashes) equal to 0 or 1.
    - A JSON [float] is observed by this program only through its truth value
      and through [str()], so the model carries exactly these two
      observations.
    - A Python [dict] is an association list in insertion order.
    - The two persisted collections are lists of records, as [load_json]
      returns them; a missing or unreadable file is the empty list.
    - Exceptions are values: a computation returns [Ok v] or [Raise e].
    - The clock is read where the code reads it.  A function that reads it
      once takes the value read as [now]; the loop of [submit_test], where
      every turn reads it again, takes [clock : nat -> string], the value
      read at each turn. *)

From Stdlib Require Import ZArith Ascii String Sorted Lia.
From stdpp Require Import sorting.
From stdpp Require Import base tactics option numbers list strings pretty.

Local Open Scope Z_scope.

(** ** Exceptions *)

Inductive exn : Type :=
| ValueError (msg : string)
| TypeError
| AttributeError.

Inductive result (A : Type) : Type :=
| Ok (a : A)
| Raise (e : exn).
Arguments Ok {A} a.
Arguments Raise {A} e.

Global Instance result_ret : MRet result := fun _ a => Ok a.
Global Instance result_bind : MBind result := fun _ _ k m =>
  match m with
  | Ok a => k a
  | Raise e => Raise e
  end.

(** ** Python built-ins on strings and integers *)

Module Py.

(** [str.isspace] restricted to ASCII: tab, line feed, vertical tab, form
    feed, carriage return, the four separators 28..31 and the space. *)
Definition is_space (c : ascii) : bool :=
  let n := N_of_ascii c in
  ((9 <=? n) && (n <=? 13) || (28 <=? n) && (n <=? 32))%N.

(** The white space [int()] skips around an ASCII literal (C's [isspace]). *)
Definition is_c_space (c : ascii) : bool :=
  let n := N_of_ascii c in
  ((9 <=? n) && (n <=? 13) || (n =? 32))%N.

Fixpoint lstrip_with (sp : ascii -> bool) (s : string) : string :=
  match s with
  | EmptyString => EmptyString
  | String c s' => if sp c then lstrip_with sp s' else s
  end.

Fixpoint rstrip_with (sp : ascii -> bool) (s : string) : string :=
  match s with
  | EmptyString => EmptyString
  | String c s' =>
      match rstrip_with sp s' with
      | EmptyString => if sp c then EmptyString else String c EmptyString
      | r => String c r
      end
  end.

Definition strip_with (sp : ascii -> bool) (s : string) : string :=
  rstrip_with sp (lstrip_with sp s).

(** [s.strip()] *)
Definition strip (s : string) : string := strip_with is_space s.

Definition map_chars (f : ascii -> ascii) : string -> string :=
  fix go (s : string) : string :=
    match s with
    | EmptyString => EmptyString
    | String c s' => String (f c) (go s')
    end.

Definition lower_char (c : ascii) : ascii :=
  let n := N_of_ascii c in
  if ((65 <=? n) && (n <=? 90))%N then ascii_of_N (n + 32) else c.

Definition upper_char (c : ascii) : ascii :=
  let n := N_of_ascii c in
  if ((97 <=? n) && (n <=? 122))%N then ascii_of_N (n - 32) else c.

(** [s.lower()] and [s.upper()] *)
Definition lower : string -> string := map_chars lower_char.
Definition upper : string -> string := map_chars upper_char.

(** [len(s)] *)
Definition len (s : string) : Z := Z.of_nat (String.length s).

(** [ord(c)] of the first character of a string *)
Definition ord (s : string) : Z :=
  match s with
  | EmptyString => 0
  | String c _ => Z.of_N (N_of_ascii c)
  end.

(** [needle in hay] on strings: substring test. *)
Fixpoint contains (hay needle : string) : bool :=
  String.prefix needle hay ||
  match hay with
  | EmptyString => false
  | String _ hay' => contains hay' needle
  end.

(** [l.index(x)] on a list of strings; [None] stands for the [ValueError]
    the caller catches. *)
Fixpoint index (x : string) (l : list string) : option Z :=
  match l with
  | [] => None
  | y :: l' => if String.eqb x y then Some 0 else Z.succ <$> index x l'
  end.

(** [sorted(l)] on integers and on strings (a stable sort). *)
Definition sorted (l : list Z) : list Z := merge_sort Z.le l.
Definition sorted_str (l : list string) : list string := merge_sort String.le l.

(** [sorted(set(l))] on integers. *)
Definition sorted_set (l : list Z) : list Z := sorted (remove_dups l).

(** [max] and [min] of two integers are [Z.max] and [Z.min]. *)

(** *** [int(s)] on a string, base ten *)

Definition digit_of (c : ascii) : option Z :=
  let n := N_of_ascii c in
  if ((48 <=? n) && (n <=? 57))%N then Some (Z.of_N (n - 48)) else None.

(** Digits, single underscores allowed between two digits. *)
Fixpoint int_digits (acc : Z) (after_digit : bool) (s : string) : option Z :=
  match s with
  | EmptyString => if after_digit then Some acc else None
  | String c s' =>
      match digit_of c with
      | Some d => int_digits (10 * acc + d) true s'
      | None =>
          if Ascii.eqb c "_" && after_digit then int_digits acc false s' else None
      end
  end.

(** [None] stands for the [ValueError] of [int]. *)
Definition int (s : string) : option Z :=
  match strip_with is_c_space s with
  | String "-" r => Z.opp <$> int_digits 0 false r
  | String "+" r => int_digits 0 false r
  | t => int_digits 0 false t
  end.

(** [str(n)] of an integer. *)
Definition str_int (n : Z) : string := pretty n.

End Py.

(** ** [uuid.uuid5]: SHA-1 based name UUIDs (RFC 4122) *)

Module Uuid.

Definition mask32 (x : Z) : Z := Z.land x 4294967295.
Definition rotl (n x : Z) : Z :=
  mask32 (Z.lor (Z.shiftl x n) (Z.shiftr x (32 - n))).

Definition bytes_of_string (s : string) : list Z :=
  (fun c => Z.of_N (N_of_ascii c)) <$> list_ascii_of_string s.

(** Big-endian conversions. *)
Definition be_int (bs : list Z) : Z :=
  fold_left (fun acc b => Z.lor (Z.shiftl acc 8) b) bs 0.

Fixpoint be_bytes (n : nat) (x : Z) : list Z :=
  match n with
  | O => []
  | S n' => be_bytes n' (Z.shiftr x 8) ++ [Z.land x 255]
  end.

Definition pad (msg : list Z) : list Z :=
  let l := Z.of_nat (length msg) in
  let zeros := Z.to_nat ((55 - l) mod 64) in
  msg ++ [128] ++ replicate zeros 0 ++ be_bytes 8 (8 * l).

(** Message schedule, newest word first. *)
Fixpoint schedule (n : nat) (w : list Z) : list Z :=
  match n with
  | O => w
  | S n' =>
      let x := Z.lxor (Z.lxor (nth 2 w 0) (nth 7 w 0))
                      (Z.lxor (nth 13 w 0) (nth 15 w 0)) in
      schedule n' (rotl 1 x :: w)
  end.

Fixpoint words (n : nat) (bs : list Z) : list Z :=
  match n with
  | O => []
  | S n' => be_int (take 4 bs) :: words n' (drop 4 bs)
  end.

Definition round (i : Z) (st : Z * Z * Z * Z * Z) (w : Z) : Z * Z * Z * Z * Z :=
  let '(a, b, c, d, e) := st in
  let '(f, k) :=
    if i <? 20 then (Z.lor (Z.land b c) (Z.land (mask32 (Z.lnot b)) d), 1518500249)
    else if i <? 40 then (Z.lxor (Z.lxor b c) d, 1859775393)
    else if i <? 60 then
      (Z.lor (Z.lor (Z.land b c) (Z.land b d)) (Z.land c d), 2400959708)
    else (Z.lxor (Z.lxor b c) d, 3395469782) in
  (mask32 (rotl 5 a + f + e + k + w), a, rotl 30 b, c, d).

Fixpoint rounds (i : Z) (ws : list Z) (st : Z * Z * Z * Z * Z) : Z * Z * Z * Z * Z :=
  match ws with
  | [] => st
  | w :: ws' => rounds (i + 1) ws' (round i st w)
  end.

Definition compress (h : Z * Z * Z * Z * Z) (chunk : list Z) : Z * Z * Z * Z * Z :=
  let ws := rev (schedule 64 (rev (words 16 chunk))) in
  let '(h0, h1, h2, h3, h4) := h in
  let '(a, b, c, d, e) := rounds 0 ws h in
  (mask32 (h0 + a), mask32 (h1 + b), mask32 (h2 + c), mask32 (h3 + d), mask32 (h4 + e)).

Fixpoint chunks (n : nat) (bs : list Z) (h : Z * Z * Z * Z * Z) : Z * Z * Z * Z * Z :=
  match n with
  | O => h
  | S n' => chunks n' (drop 64 bs) (compress h (take 64 bs))
  end.

Definition sha1 (msg : list Z) : list Z :=
  let p := pad msg in
  let '(h0, h1, h2, h3, h4) :=
    chunks (length p / 64)%nat p
      (1732584193, 4023233417, 2562383102, 271733878, 3285377520) in
  be_bytes 4 h0 ++ be_bytes 4 h1 ++ be_bytes 4 h2 ++ be_bytes 4 h3 ++ be_bytes 4 h4.

(** A UUID is its 128-bit integer ([UUID.int]). *)
Definition uuid := Z.

(** [uuid.NAMESPACE_DNS] = 6ba7b810-9dad-11d1-80b4-00c04fd430c8 *)
Definition NAMESPACE_DNS : uuid := 0x6ba7b8109dad11d180b400c04fd430c8.

(** [UUID(bytes=..., version=5)]: variant and version bits are forced. *)
Definition with_version (v : Z) (x : Z) : uuid :=
  let x := Z.land x (Z.lnot (Z.shiftl 0xc000 48)) in
  let x := Z.lor x (Z.shiftl 0x8000 48) in
  let x := Z.land x (Z.lnot (Z.shiftl 0xf000 64)) in
  Z.lor x (Z.shiftl v 76).

(** [uuid.uuid5(namespace, name)] for a [str] name. *)
Definition uuid5 (namespace : uuid) (name : string) : uuid :=
  let h := sha1 (be_bytes 16 namespace ++ bytes_of_string name) in
  with_version 5 (be_int (take 16 h)).

Definition hex_digit (d : Z) : ascii :=
  ascii_of_N (Z.to_N (if d <? 10 then 48 + d else 87 + d)).

Fixpoint hex (n : nat) (x : Z) : list ascii :=
  match n with
  | O => []
  | S n' => hex n' (Z.shiftr x 4) ++ [hex_digit (Z.land x 15)]
  end.

(** [str(u)]: 32 hexadecimal digits grouped 8-4-4-4-12. *)
Definition str (u : uuid) : string :=
  let h := hex 32 u in
  string_of_list_ascii
    (take 8 h ++ ["-"%char] ++ take 4 (drop 8 h) ++ ["-"%char]
     ++ take 4 (drop 12 h) ++ ["-"%char] ++ take 4 (drop 16 h)
     ++ ["-"%char] ++ drop 20 h).

End Uuid.

(** ** JSON values, as [json.load] returns them *)

(** A [float], by what the program can observe of it: its truth value and
    the text of [str(f)], which is never empty (its first character and the
    rest). *)
Record pyfloat : Type := PyFloat {
  float_truth : bool;
  float_str_head : ascii;
  float_str_tail : string
}.

Definition float_str (f : pyfloat) : string :=
  String (float_str_head f) (float_str_tail f).

#[warnings="-register-all"]
Inductive json : Type :=
| JNull
| JBool (b : bool)
| JInt (n : Z)
| JFloat (f : pyfloat)
| JStr (s : string)
| JList (xs : list json)
| JDict (kvs : list (string * json)).

Module PyVal.

(** Truth value of an object ([not x], [x or y]). *)
Definition truthy (v : json) : bool :=
  match v with
  | JNull => false
  | JBool b => b
  | JInt n => negb (n =? 0)
  | JFloat f => float_truth f
  | JStr s => negb (String.eqb s "")
  | JList xs => match xs with [] => false | _ => true end
  | JDict kvs => match kvs with [] => false | _ => true end
  end.

(** [a or b] *)
Definition or (a b : json) : json := if truthy a then a else b.

(** [d[key]] as an option. *)
Fixpoint find (kvs : list (string * json)) (key : string) : option json :=
  match kvs with
  | [] => None
  | (k, v) :: kvs' => if String.eqb k key then Some v else find kvs' key
  end.

(** [d.get(key)] and [d.get(key, default)] *)
Definition get_default (kvs : list (string * json)) (key : string) (default : json) : json :=
  match find kvs key with
  | Some v => v
  | None => default
  end.
Definition get (kvs : list (string * json)) (key : string) : json :=
  get_default kvs key JNull.

(** [d.keys()] and [d.values()] *)
Definition keys (kvs : list (string * json)) : list string := fst <$> kvs.
Definition values (kvs : list (string * json)) : list json := snd <$> kvs.

Fixpoint join (sep : string) (l : list string) : string :=
  match l with
  | [] => ""
  | [x] => x
  | x :: l' => x +:+ sep +:+ join sep l'
  end.

(** [repr] of a [str]: single quotes unless the text holds a single quote
    and no double quote; backslash, the quote, tab, line feed and carriage
    return are escaped, other control characters are written [\xNN]. *)
Definition dquote : ascii := "034"%char.

Definition quote_of (s : string) : ascii :=
  if Py.contains s "'" && negb (Py.contains s (String dquote "")) then dquote
  else "'"%char.

Definition repr_char (q c : ascii) : string :=
  let n := N_of_ascii c in
  if Ascii.eqb c "\" then "\\"
  else if Ascii.eqb c q then String "\" (String c "")
  else if (n =? 9)%N then "\t"
  else if (n =? 10)%N then "\n"
  else if (n =? 13)%N then "\r"
  else if ((n <? 32) || (n =? 127))%N then
    String "\" (String "x" (string_of_list_ascii (Uuid.hex 2 (Z.of_N n))))
  else String c "".

Fixpoint repr_chars (q : ascii) (s : string) : string :=
  match s with
  | EmptyString => String q ""
  | String c s' => repr_char q c +:+ repr_chars q s'
  end.

Definition repr_str (s : string) : string :=
  let q := quote_of s in String q (repr_chars q s).

(** [repr(v)] *)
Fixpoint repr (v : json) : string :=
  match v with
  | JNull => "None"
  | JBool b => if b then "True" else "False"
  | JInt n => Py.str_int n
  | JFloat f => float_str f
  | JStr s => repr_str s
  | JList xs => "[" +:+ join ", " (map repr xs) +:+ "]"
  | JDict kvs =>
      "{" +:+ join ", " (map (fun kv => repr_str (fst kv) +:+ ": " +:+ repr (snd kv)) kvs)
      +:+ "}"
  end.

(** [str(v)] *)
Definition str (v : json) : string :=
  match v with
  | JStr s => s
  | _ => repr v
  end.

End PyVal.

(** ** The canonical question and the normaliser *)

(** The dict [normalize_question] returns, and a record of [questions.json]. *)
Record Question : Type := mkQuestion {
  q_id : string;
  q_question : string;
  q_choices : list string;
  q_correct_answers : list Z;
  q_domain : string;
  q_comment : string
}.

Global Instance Question_eq_dec : EqDecision Question.
Proof. solve_decision. Defined.

Definition ALPHABET : string := "ABCDEFGHIJKLMNOPQRSTUVWXYZ".

(** What [for answer in raw_answers] iterates over, after the scalar case
    has been wrapped in a list.  A dict iterates over its keys; a float is
    not iterable. *)
Definition answers_of (raw_answers : json) : result (list json) :=
  match raw_answers with
  | JStr _ | JInt _ | JBool _ => Ok [raw_answers]
  | JList xs => Ok xs
  | JDict kvs => Ok (JStr <$> PyVal.keys kvs)
  | JFloat _ => Raise TypeError
  | JNull => Ok []
  end.

(** [0 <= idx < len(choices)] *)
Definition in_range (idx : Z) (choices : list string) : bool :=
  (0 <=? idx) && (idx <? Z.of_nat (length choices)).

(** Match by exact option text: [lower_choices.index(lowered)], appended
    when found. *)
Definition match_text (stripped : string) (lower_choices : list string)
    (normalized : list Z) : list Z :=
  let lowered := Py.lower stripped in
  match Py.index lowered lower_choices with
  | Some idx => normalized ++ [idx]
  | None => normalized
  end.

(** One turn of the loop of [normalize_correct_answers]. *)
Definition answer_step (choices lower_choices : list string)
    (normalized : list Z) (answer : json) : list Z :=
  let int_case (n : Z) :=
    if in_range n choices then normalized ++ [n] else normalized in
  match answer with
  | JInt n => int_case n
  | JBool b => int_case (Z.b2z b)
  | JStr s =>
      let stripped := Py.strip s in
      if (Py.len stripped =? 1) && Py.contains ALPHABET (Py.upper stripped) then
        let idx := Py.ord (Py.upper stripped) - Py.ord "A" in
        if in_range idx choices then normalized ++ [idx]
        else match_text stripped lower_choices normalized
      else match_text stripped lower_choices normalized
  | _ => normalized
  end.

Definition normalize_correct_answers (raw_answers : json) (choices : list string)
    : result (list Z) :=
  match raw_answers with
  | JNull => Ok []
  | _ =>
      raw_answers ← answers_of raw_answers;
      let lower_choices := Py.lower <$> choices in
      let normalized := foldl (answer_step choices lower_choices) [] raw_answers in
      Ok (Py.sorted_set normalized)
  end.

(** [str(uuid.uuid5(uuid.uuid5(uuid.NAMESPACE_DNS, text), "cissp-question"))] *)
Definition derived_id (question_text : string) : string :=
  let namespace := Uuid.uuid5 Uuid.NAMESPACE_DNS question_text in
  Uuid.str (Uuid.uuid5 namespace "cissp-question").

(** The locals of [normalize_question], each as a function of the raw
    dict. *)

(** [raw.get("question") or raw.get("text") or raw.get("prompt")] *)
Definition question_text_of (raw : list (string * json)) : json :=
  PyVal.or (PyVal.or (PyVal.get raw "question") (PyVal.get raw "text"))
           (PyVal.get raw "prompt").

(** [raw_choices], after a dict has been replaced by its values in the
    order of its sorted keys. *)
Definition raw_choices_of (raw : list (string * json)) : json :=
  let raw_choices := PyVal.or (PyVal.get raw "choices") (PyVal.get raw "options") in
  match raw_choices with
  | JDict d => JList ((fun key => PyVal.get d key) <$> Py.sorted_str (PyVal.keys d))
  | _ => raw_choices
  end.

Definition raw_correct_of (raw : list (string * json)) : json :=
  PyVal.or (PyVal.or (PyVal.or (PyVal.get raw "correct_answers")
                               (PyVal.get raw "correct_answer"))
                     (PyVal.get raw "answer"))
           (PyVal.get raw "answers").

Definition domain_of (raw : list (string * json)) : string :=
  let domain_value := PyVal.get_default raw "domain" (JStr "General") in
  let domain :=
    match domain_value with
    | JNull => "General"
    | _ => Py.strip (PyVal.str domain_value)
    end in
  if String.eqb domain "" then "General" else domain.

Definition comment_of (raw : list (string * json)) : string :=
  let comment_value :=
    PyVal.or (PyVal.or (PyVal.get raw "comment") (PyVal.get raw "explanation"))
             (JStr "") in
  match comment_value with
  | JNull => ""
  | _ => Py.strip (PyVal.str comment_value)
  end.

(** [raw.get("id") or raw.get("uuid")] *)
Definition question_id_of (raw : list (string * json)) : json :=
  PyVal.or (PyVal.get raw "id") (PyVal.get raw "uuid").

Definition normalize_question (raw_question : json) : result Question :=
  match raw_question with
  | JDict raw =>
      let question_text := question_text_of raw in
      if negb (PyVal.truthy question_text) then
        Raise (ValueError "Question text is required")
      else
      match raw_choices_of raw with
      | JList raw_choices =>
          if Z.of_nat (length raw_choices) <? 2 then
            Raise (ValueError "Choices must be a list with at least two options")
          else
          let choices := PyVal.str <$> raw_choices in
          let raw_correct := raw_correct_of raw in
          correct_answers ← normalize_correct_answers raw_correct choices;
          match correct_answers with
          | [] => Raise (ValueError "At least one correct answer is required")
          | _ =>
              let domain := domain_of raw in
              let comment := comment_of raw in
              let question_id := question_id_of raw in
              (* [uuid5] needs a [str] name: anything else is a TypeError *)
              question_id ←
                (if negb (PyVal.truthy question_id) then
                   match question_text with
                   | JStr text => Ok (JStr (derived_id text))
                   | _ => Raise TypeError
                   end
                 else Ok question_id);
              (* [question_text.strip()]: only a [str] has the method *)
              match question_text with
              | JStr text =>
                  Ok {| q_id := PyVal.str question_id;
                        q_question := Py.strip text;
                        q_choices := choices;
                        q_correct_answers := correct_answers;
                        q_domain := domain;
                        q_comment := comment |}
              | _ => Raise AttributeError
              end
          end
      | _ => Raise (ValueError "Choices must be a list with at least two options")
      end
  | _ => Raise AttributeError
  end.

(** The invariant of a canonical question: the correct answers are a
    non-empty, duplicate-free, strictly ascending list of valid choice
    indices, and there are at least two choices. *)
Definition canonical (q : Question) : Prop :=
  q_correct_answers q <> []
  /\ NoDup (q_correct_answers q)
  /\ StronglySorted Z.lt (q_correct_answers q)
  /\ Forall (fun i => 0 <= i < Z.of_nat (length (q_choices q))) (q_correct_answers q)
  /\ (2 <= length (q_choices q))%nat.

(** The canonical question as the dict it is returned and stored as. *)
Definition to_dict (q : Question) : list (string * json) :=
  [("id", JStr (q_id q));
   ("question", JStr (q_question q));
   ("choices", JList (JStr <$> q_choices q));
   ("correct_answers", JList (JInt <$> q_correct_answers q));
   ("domain", JStr (q_domain q));
   ("comment", JStr (q_comment q))].

Definition to_json (q : Question) : json := JDict (to_dict q).

(** ** Python dicts keyed by strings, in insertion order *)

Module Dict.
(** The type of a dict with values in [V]. *)
Abbreviation t V := (list (string * V)) (only parsing).

Section dict.
Context {V : Type}.

(** [d[key]], [None] when the key is absent. *)
Fixpoint find (d : t V) (key : string) : option V :=
  match d with
  | [] => None
  | (k, v) :: d' => if String.eqb k key then Some v else find d' key
  end.

(** [key in d] *)
Definition mem (d : t V) (key : string) : bool :=
  match find d key with
  | Some _ => true
  | None => false
  end.

(** [d[key] = v]: an existing key keeps its place, a new key goes last. *)
Fixpoint set (d : t V) (key : string) (v : V) : t V :=
  match d with
  | [] => [(key, v)]
  | (k, v') :: d' =>
      if String.eqb k key then (k, v) :: d' else (k, v') :: set d' key v
  end.

(** [list(d.values())] *)
Definition values (d : t V) : list V := snd <$> d.

(** [d[key_of(x)] = x] *)
Definition step (key_of : V -> string) (d : t V) (x : V) : t V :=
  set d (key_of x) x.

(** [{key_of(x): x for x in l}] *)
Definition of_list (key_of : V -> string) (l : list V) : t V :=
  foldl (step key_of) [] l.

(** Every entry is filed under the key its value carries. *)
Definition keyed (key_of : V -> string) (d : t V) : Prop :=
  Forall (fun kv => key_of (snd kv) = fst kv) d.
End dict.
End Dict.

(** ** The importer *)

Record ImportStats : Type := mkStats { imported : nat; updated : nat }.

(** The [items] the loop of [import_questions] runs over. *)
Definition import_items (raw_data : json) : result (list json) :=
  let items :=
    match raw_data with
    | JDict d =>
        let items :=
          PyVal.or (PyVal.or (PyVal.get d "questions") (PyVal.get d "data")) (JList []) in
        match items with
        | JDict d' => JList (PyVal.values d')
        | _ => items
        end
    | _ => raw_data
    end in
  match items with
  | JList items => Ok items
  | _ => Raise (ValueError "Unsupported format. Expected a list of questions.")
  end.

(** One turn of the loop: [except ValueError: continue] skips the record,
    any other exception leaves the loop. *)
Definition import_step (st : Dict.t Question * nat * nat) (raw_question : json)
    : result (Dict.t Question * nat * nat) :=
  let '(existing_questions, imported, updated) := st in
  match normalize_question raw_question with
  | Raise (ValueError _) => Ok st
  | Raise e => Raise e
  | Ok question =>
      if Dict.mem existing_questions (q_id question) then
        Ok (Dict.set existing_questions (q_id question) question, imported, S updated)
      else
        Ok (Dict.set existing_questions (q_id question) question, S imported, updated)
  end.

Fixpoint import_loop (items : list json) (st : Dict.t Question * nat * nat)
    : result (Dict.t Question * nat * nat) :=
  match items with
  | [] => Ok st
  | raw_question :: items' => st' ← import_step st raw_question; import_loop items' st'
  end.

(** [import_questions raw_data] on the question store [questions]: the
    value returned or the exception raised, and the store afterwards
    ([save_json] is the last statement, so an exception leaves the file as
    it was). *)
Definition import_questions (questions : list Question) (raw_data : json)
    : result ImportStats * list Question :=
  let existing_questions := Dict.of_list q_id questions in
  match items ← import_items raw_data; import_loop items (existing_questions, O, O) with
  | Ok (existing_questions, imported, updated) =>
      (Ok {| imported := imported; updated := updated |}, Dict.values existing_questions)
  | Raise e => (Raise e, questions)
  end.

(** The records of a batch that [normalize_question] accepts, in order. *)
Definition accepted (items : list json) : list Question :=
  omap (fun raw_question =>
          match normalize_question raw_question with
          | Ok question => Some question
          | Raise _ => None
          end) items.

(** A record the loop gets past: it normalises, or fails with the
    [ValueError] the loop catches. *)
Definition validates (raw_question : json) : Prop :=
  match normalize_question raw_question with
  | Ok _ | Raise (ValueError _) => True
  | Raise _ => False
  end.

(** How many questions of a list carry an id that is new when the question
    is reached: not among [seen], nor carried by an earlier question. *)
Fixpoint count_fresh (seen : list string) (qs : list Question) : nat :=
  match qs with
  | [] => O
  | q :: qs' =>
      if bool_decide (q_id q ∈ seen) then count_fresh seen qs'
      else S (count_fresh (q_id q :: seen) qs')
  end.

(** ** The wrong-answer store *)

Record WrongAnswer : Type := mkWrong {
  question_id : string;
  wrong_count : Z;
  last_attempt : string;
  last_answer : list Z
}.

Global Instance WrongAnswer_eq_dec : EqDecision WrongAnswer.
Proof. solve_decision. Defined.

(** [update_wrong_answers], on the contents of [wrong_questions.json];
    [now] is [datetime.utcnow().isoformat()]. *)
Definition update_wrong_answers (now : string) (wrong_answers : list WrongAnswer)
    (qid : string) (selected_indices : list Z) (is_correct : bool) : list WrongAnswer :=
  let wrong_lookup := Dict.of_list question_id wrong_answers in
  if is_correct then
    if Dict.mem wrong_lookup qid then
      List.filter (fun item => negb (String.eqb (question_id item) qid)) wrong_answers
    else wrong_answers
  else
    let wrong_lookup :=
      match Dict.find wrong_lookup qid with
      | Some item =>
          Dict.set wrong_lookup qid
            {| question_id := question_id item;
               wrong_count := wrong_count item + 1;
               last_attempt := now;
               last_answer := selected_indices |}
      | None =>
          Dict.set wrong_lookup qid
            {| question_id := qid;
               wrong_count := 1;
               last_attempt := now;
               last_answer := selected_indices |}
      end in
    Dict.values wrong_lookup.

(** The record the code finds for a question id: [wrong_lookup[qid]], or
    [None] when [qid not in wrong_lookup]. *)
Definition record_of (wrong_answers : list WrongAnswer) (qid : string)
    : option WrongAnswer :=
  Dict.find (Dict.of_list question_id wrong_answers) qid.

(** ** Test sessions *)

(** [random.sample(population, k)]: [k] draws without replacement; the
    [i]-th draw takes position [rng i] modulo the number of items left. *)
Fixpoint sample_from {A : Type} (rng : nat -> nat) (i : nat) (pool : list A) (k : nat)
    : list A :=
  match k with
  | O => []
  | S k' =>
      let j := (rng i mod length pool)%nat in
      match pool !! j with
      | Some x => x :: sample_from rng (S i) (delete j pool) k'
      | None => []
      end
  end.

Definition sample {A : Type} (rng : nat -> nat) (population : list A) (k : Z)
    : result (list A) :=
  if (0 <=? k) && (k <=? Z.of_nat (length population)) then
    Ok (sample_from rng O population (Z.to_nat k))
  else Raise (ValueError "Sample larger than population or is negative").

(** [request.form]: a multi-dict of strings. *)
Definition Form : Type := list (string * string).

Definition form_getlist (form : Form) (key : string) : list string :=
  snd <$> List.filter (fun kv => String.eqb (fst kv) key) form.

Definition form_get (form : Form) (key : string) : option string :=
  head (form_getlist form key).

Inductive Mode : Type := standard | review_mode.

Record TestSession : Type := mkSession {
  questions : list Question;
  timestamp : string;
  mode : Mode
}.

Record ResultRow : Type := mkRow {
  row_question : Question;
  row_selected : list Z;
  row_is_correct : bool;
  row_correct_answers : list Z
}.

(** [last_results]; the percentage [score] is a float and is left out. *)
Record Results : Type := mkResults {
  results : list ResultRow;
  correct_count : nat;
  total_questions : nat;
  results_mode : Mode
}.

(** The Flask session of one user. *)
Record Session : Type := mkFlask {
  current_test : option TestSession;
  last_results : option Results
}.

Inductive Response : Type :=
| Redirect (endpoint : string) (flash : option string)
| Render (template : string).

Inductive Method : Type := GET | POST.

(** [int(request.form.get("total_questions", 0))], 0 on [ValueError]. *)
Definition requested_count (form : Form) : Z :=
  match form_get form "total_questions" with
  | None => 0
  | Some s =>
      match Py.int s with
      | Some n => n
      | None => 0
      end
  end.

(** [max(1, min(total_questions or len(pool), len(pool)))] *)
Definition effective_count (total_questions : Z) (pool_size : nat) : Z :=
  let n := Z.of_nat pool_size in
  Z.max 1 (Z.min (if total_questions =? 0 then n else total_questions) n).

(** The domain filter of [new_test]. *)
Definition filter_domain (selected_domain : option string) (questions : list Question)
    : list Question :=
  List.filter (fun q => match selected_domain with
                        | None => true
                        | Some d => String.eqb d "" || String.eqb (q_domain q) d
                        end) questions.

(** The POST branch shared by [new_test] and [review], from the clamping
    on. *)
Definition start_test (rng : nat -> nat) (now : string) (m : Mode)
    (pool : list Question) (total_questions : Z) (sess : Session)
    : result (Response * Session) :=
  let total_questions := effective_count total_questions (length pool) in
  selected_questions ← sample rng pool total_questions;
  Ok (Redirect "take_test" None,
      {| current_test := Some {| questions := selected_questions;
                                 timestamp := now;
                                 mode := m |};
         last_results := last_results sess |}).

Definition new_test (rng : nat -> nat) (now : string) (method : Method)
    (all_questions : list Question) (form : Form) (sess : Session)
    : result (Response * Session) :=
  match all_questions with
  | [] => Ok (Redirect "import_view" (Some "Import questions before creating a test."), sess)
  | _ =>
      match method with
      | POST =>
          let total_questions := requested_count form in
          let selected_domain := form_get form "domain" in
          let filtered := filter_domain selected_domain all_questions in
          match filtered with
          | [] =>
              Ok (Redirect "new_test"
                    (Some "No questions available for the selected criteria."), sess)
          | _ => start_test rng now standard filtered total_questions sess
          end
      | GET => Ok (Render "new_test.html", sess)
      end
  end.

(** The review pool: [[q for q in questions if q["id"] in wrong_lookup]]. *)
Definition review_questions (all_questions : list Question)
    (wrong_answers : list WrongAnswer) : list Question :=
  let wrong_lookup := Dict.of_list question_id wrong_answers in
  List.filter (fun q => Dict.mem wrong_lookup (q_id q)) all_questions.

Definition review (rng : nat -> nat) (now : string) (method : Method)
    (all_questions : list Question) (wrong_answers : list WrongAnswer)
    (form : Form) (sess : Session) : result (Response * Session) :=
  let pool := review_questions all_questions wrong_answers in
  match method with
  | POST =>
      match pool with
      | [] => Ok (Redirect "review" (Some "There are no questions to review right now."), sess)
      | _ => start_test rng now review_mode pool (requested_count form) sess
      end
  | GET => Ok (Render "review.html", sess)
  end.

(** *** Submission and scoring *)

(** [[int(choice) for choice in selected_indices]]; the [ValueError] of
    [int] is not caught by [submit_test]. *)
Fixpoint ints_of (selected_indices : list string) : result (list Z) :=
  match selected_indices with
  | [] => Ok []
  | choice :: rest =>
      match Py.int choice with
      | Some n => ns ← ints_of rest; Ok (n :: ns)
      | None => Raise (ValueError "invalid literal for int() with base 10")
      end
  end.

(** [sorted({int(choice) for choice in selected_indices}) if selected_indices else []] *)
Definition selected_of (form : Form) (question : Question) : result (list Z) :=
  let form_key := "q_" +:+ q_id question in
  let selected_indices := form_getlist form form_key in
  match selected_indices with
  | [] => Ok []
  | _ => ns ← ints_of selected_indices; Ok (Py.sorted_set ns)
  end.

(** [selected == sorted(question["correct_answers"])] *)
Definition is_correct (selected : list Z) (question : Question) : bool :=
  bool_decide (selected = Py.sorted (q_correct_answers question)).

(** The loop of [submit_test].  The wrong-answer store is written at every
    turn, so it is returned also when a later turn raises.  Every call of
    [update_wrong_answers] reads the clock for itself: [clock i] is what
    [datetime.utcnow().isoformat()] gives to the call made at turn [i] of
    the loop, and [turn] counts the turns from 0. *)
Fixpoint submit_loop (clock : nat -> string) (form : Form) (qs : list Question)
    (turn : nat) (wrong_answers : list WrongAnswer) (rows : list ResultRow)
    (correct : nat) : result (list ResultRow * nat) * list WrongAnswer :=
  match qs with
  | [] => (Ok (rows, correct), wrong_answers)
  | question :: qs' =>
      match selected_of form question with
      | Raise e => (Raise e, wrong_answers)
      | Ok selected =>
          let correct_answers := Py.sorted (q_correct_answers question) in
          let ok := is_correct selected question in
          let correct := if ok then S correct else correct in
          let wrong_answers :=
            update_wrong_answers (clock turn) wrong_answers (q_id question)
              selected ok in
          submit_loop clock form qs' (S turn) wrong_answers
            (rows ++ [{| row_question := question;
                         row_selected := selected;
                         row_is_correct := ok;
                         row_correct_answers := correct_answers |}])
            correct
      end
  end.

Definition submit_test (clock : nat -> string) (form : Form)
    (wrong_answers : list WrongAnswer) (sess : Session)
    : result Response * list WrongAnswer * Session :=
  match current_test sess with
  | None => (Ok (Redirect "new_test" (Some "No active test found.")), wrong_answers, sess)
  | Some test =>
      match submit_loop clock form (questions test) O wrong_answers [] O with
      | (Raise e, wrong_answers') => (Raise e, wrong_answers', sess)
      | (Ok (rows, correct), wrong_answers') =>
          (Ok (Redirect "show_results" None), wrong_answers',
           {| current_test := None;
              last_results := Some {| results := rows;
                                      correct_count := correct;
                                      total_questions := length (questions test);
                                      results_mode := mode test |} |})
      end
  end.

(** *** The remaining views *)



(** [inject_counts]: what every template receives. *)
Record Counts : Type := mkCounts {
  question_count : nat;
  wrong_questions : nat;
  domains : list string
}.

Definition inject_counts (all_questions : list Question)
    (wrong_answers : list WrongAnswer) : Counts :=
  {| question_count := length all_questions;
     wrong_questions := length wrong_answers;
     domains := Py.sorted_str (remove_dups (q_domain <$> all_questions)) |}.

(** [import_view].  [upload] is [request.files.get("questions_file")]: the
    file name and what [json.load] makes of the file ([JSONDecodeError] is a
    [ValueError]).  The store is returned with the response. *)
Definition import_view (method : Method) (upload : option (string * result json))
    (all_questions : list Question) : result Response * list Question :=
  match method with
  | GET => (Ok (Render "import.html"), all_questions)
  | POST =>
      let no_file :=
        (Ok (Redirect "import_view" (Some "Please choose a JSON file to upload.")),
         all_questions) in
      match upload with
      | None => no_file
      | Some (filename, parsed) =>
          if String.eqb filename "" then no_file
          else
            let failed (msg : string) :=
              Ok (Redirect "import_view" (Some ("Failed to import questions: " +:+ msg))) in
            match parsed with
            | Raise (ValueError msg) => (failed msg, all_questions)
            | Raise e => (Raise e, all_questions)
            | Ok payload =>
                match import_questions all_questions payload with
                | (Ok stats, all_questions') =>
                    (Ok (Redirect "index"
                           (Some ("Imported " +:+ Py.str_int (Z.of_nat (imported stats))
                                  +:+ " questions, updated "
                                  +:+ Py.str_int (Z.of_nat (updated stats)) +:+ "."))),
                     all_questions')
                | (Raise (ValueError msg), all_questions') => (failed msg, all_questions')
                | (Raise e, all_questions') => (Raise e, all_questions')
                end
            end
      end
  end.

Example sha1_abc :
  Uuid.sha1 (Uuid.bytes_of_string "abc")
  = Uuid.be_bytes 20 0xa9993e364706816aba3e25717850c26c9cd0d89d.
Proof. vm_compute. reflexivity. Qed.

(* the example of the Python documentation *)
Example uuid5_python_org :
  Uuid.str (Uuid.uuid5 Uuid.NAMESPACE_DNS "python.org")
  = "886313e1-3b8a-5372-9b90-0c9aee199e5d".
Proof. vm_compute. reflexivity. Qed.

Example int_examples :
  Py.int " 12 " = Some 12 /\ Py.int "-7" = Some (-7) /\ Py.int "1_000" = Some 1000
  /\ Py.int "1__0" = None /\ Py.int "abc" = None /\ Py.int "" = None
  /\ Py.int "3.5" = None /\ Py.int "+ 1" = None /\ Py.int "007" = Some 7
  /\ Py.int (String "028" "5") = None /\ Py.int "_1" = None /\ Py.int "1_" = None.
Proof. vm_compute. repeat split. Qed.

Example strip_examples :
  Py.strip "  a b  " = "a b" /\ Py.strip "   " = "" /\ Py.lower "AbC" = "abc"
  /\ Py.sorted_set [3; 1; 3; 2] = [1; 2; 3] /\ Py.str_int (-12) = "-12".
Proof. vm_compute. repeat split. Qed.

Example repr_examples :
  PyVal.str (JList [JInt 1; JStr "a"; JNull; JBool true]) = "[1, 'a', None, True]"
  /\ PyVal.str (JDict [("k", JStr "it's")])
     = "{'k': " +:+ String PyVal.dquote ("it's" +:+ String PyVal.dquote "}")
  /\ PyVal.str (JStr "x") = "x".
Proof. vm_compute. repeat split. Qed.

Example normalize_example :
  normalize_question
    (JDict [("question", JStr " Pick one ");
            ("choices", JList [JStr "red"; JStr "green"; JStr "blue"]);
            ("answer", JList [JStr "c"; JStr "RED"; JInt 7]);
            ("id", JInt 17)])
  = Ok {| q_id := "17"; q_question := "Pick one";
          q_choices := ["red"; "green"; "blue"];
          q_correct_answers := [0; 2]; q_domain := "General"; q_comment := "" |}.
Proof. vm_compute. reflexivity. Qed.

(** * Properties *)

Arguments Py.sorted : simpl never.
Arguments Py.sorted_set : simpl never.
Arguments Py.sorted_str : simpl never.
Arguments Py.strip : simpl never.
Arguments Py.lower : simpl never.
Arguments Py.upper : simpl never.
Arguments Py.contains : simpl never.
Arguments Py.str_int : simpl never.
Arguments derived_id : simpl never.
Arguments accepted : simpl never.

(** ** Facts about insertion-ordered dicts *)

Ltac eqb_cases :=
  repeat match goal with
  | |- context [String.eqb ?a ?b] => destruct (String.eqb_spec a b); subst
  | H : context [String.eqb ?a ?b] |- _ => destruct (String.eqb_spec a b); subst
  end; simpl in *; try congruence.

Section dict_facts.
Context {V : Type}.
Implicit Types (d : Dict.t V) (k : string) (v : V).

Lemma find_set d k k' v :
  Dict.find (Dict.set d k v) k' = if String.eqb k k' then Some v else Dict.find d k'.
Proof.
  induction d as [|[k0 v0] d IH]; simpl; [done|].
  destruct (String.eqb_spec k0 k) as [->|Hne]; simpl.
  - destruct (String.eqb_spec k k'); done.
  - rewrite IH. destruct (String.eqb_spec k0 k') as [->|]; [|done].
    destruct (String.eqb_spec k k'); congruence.
Qed.

Lemma mem_set d k k' v :
  Dict.mem (Dict.set d k v) k' = String.eqb k k' || Dict.mem d k'.
Proof. unfold Dict.mem. rewrite find_set. by destruct (String.eqb k k'). Qed.

Lemma find_None_keys d k : Dict.find d k = None <-> k ∉ d.*1.
Proof.
  induction d as [|[k0 v0] d IH]; simpl.
  - split; [intros _; apply not_elem_of_nil | done].
  - rewrite not_elem_of_cons. destruct (String.eqb_spec k0 k) as [->|Hne].
    + split; [done | intros [? _]; done].
    + rewrite IH. naive_solver.
Qed.

Lemma mem_keys d k : Dict.mem d k = true <-> k ∈ d.*1.
Proof.
  unfold Dict.mem. destruct (Dict.find d k) eqn:E.
  - split; [intros _ | done].
    destruct (decide (k ∈ d.*1)) as [|Hn]; [done|].
    apply find_None_keys in Hn. congruence.
  - apply find_None_keys in E. split; [done | intros; done].
Qed.

Lemma set_fresh d k v : k ∉ d.*1 -> Dict.set d k v = d ++ [(k, v)].
Proof.
  induction d as [|[k0 v0] d IH]; simpl; [done|].
  rewrite not_elem_of_cons. intros [Hne Hd].
  destruct (String.eqb_spec k0 k); [congruence|]. by rewrite IH.
Qed.

Lemma keys_set d k v :
  (Dict.set d k v).*1 = if Dict.mem d k then d.*1 else d.*1 ++ [k].
Proof.
  induction d as [|[k0 v0] d IH]; [done|].
  unfold Dict.mem in *. cbn [Dict.set Dict.find].
  destruct (String.eqb_spec k0 k) as [->|Hne]; [done|].
  rewrite !fmap_cons, IH. by destruct (Dict.find d k).
Qed.

Lemma NoDup_keys_set d k v : NoDup d.*1 -> NoDup (Dict.set d k v).*1.
Proof.
  intros Hd. rewrite keys_set. destruct (Dict.mem d k) eqn:E; [done|].
  apply NoDup_app. split_and!; [done | | apply NoDup_singleton].
  intros x Hx ->%list_elem_of_singleton.
  apply mem_keys in Hx. congruence.
Qed.

Lemma elem_of_values_set d k v x :
  x ∈ Dict.values (Dict.set d k v) -> x = v \/ x ∈ Dict.values d.
Proof.
  unfold Dict.values. induction d as [|[k0 v0] d IH]; simpl.
  - rewrite list_elem_of_singleton. auto.
  - destruct (String.eqb_spec k0 k) as [->|]; simpl;
      rewrite !elem_of_cons; naive_solver.
Qed.

Lemma find_Some_values d k v : Dict.find d k = Some v -> v ∈ Dict.values d.
Proof.
  unfold Dict.values. induction d as [|[k0 v0] d IH]; simpl; [done|].
  destruct (String.eqb_spec k0 k) as [->|]; rewrite elem_of_cons.
  - intros [= ->]. by left.
  - auto.
Qed.

Lemma NoDup_find_elem d k v : NoDup d.*1 -> (k, v) ∈ d -> Dict.find d k = Some v.
Proof.
  induction d as [|[k0 v0] d IH]; simpl; [by intros _ ?%elem_of_nil|].
  rewrite NoDup_cons, elem_of_cons. intros [Hk0 Hd] [[= -> ->]|Hin].
  - by rewrite String.eqb_refl.
  - destruct (String.eqb_spec k0 k) as [->|]; [|auto].
    destruct Hk0. apply list_elem_of_fmap. by exists (k, v).
Qed.

End dict_facts.

Section keyed_dict_facts.
Context {V : Type} (key_of : V -> string).
Implicit Types (d : Dict.t V) (k : string) (v : V) (l : list V).

Abbreviation keyed := (Dict.keyed key_of).
Abbreviation step := (Dict.step key_of).

Lemma keyed_set d k v : keyed d -> key_of v = k -> keyed (Dict.set d k v).
Proof.
  intros Hd Hk. induction Hd as [|[k0 v0] d H0 Hd IH]; simpl.
  - by repeat constructor.
  - destruct (String.eqb_spec k0 k) as [->|]; constructor; done.
Qed.

Lemma foldl_step_inv (P : Dict.t V -> Prop) l d :
  P d -> (forall d x, P d -> P (step d x)) -> P (foldl step d l).
Proof. revert d. induction l as [|x l IH]; simpl; auto. Qed.

Lemma of_list_NoDup l : NoDup (Dict.of_list key_of l).*1.
Proof.
  apply (foldl_step_inv (fun d => NoDup d.*1)); [constructor|].
  intros. by apply NoDup_keys_set.
Qed.

Lemma of_list_keyed l : keyed (Dict.of_list key_of l).
Proof.
  apply (foldl_step_inv keyed); [constructor|].
  intros. by apply keyed_set.
Qed.

(** A lookup in [{key_of(x): x for x in l}] finds the last [x] of [l]
    with that key. *)
Lemma find_foldl l d k :
  Dict.find (foldl step d l) k =
  match last (List.filter (fun x => String.eqb (key_of x) k) l) with
  | Some x => Some x
  | None => Dict.find d k
  end.
Proof.
  revert d. induction l as [|x l IH]; intros d; simpl; [done|].
  rewrite IH. unfold Dict.step at 1. rewrite find_set.
  destruct (String.eqb_spec (key_of x) k) as [Hk|]; [|done].
  destruct (List.filter _ l) as [|y f] eqn:E; simpl; [done|].
  rewrite last_cons. by destruct (last f).
Qed.

Lemma find_of_list l k :
  Dict.find (Dict.of_list key_of l) k =
  last (List.filter (fun x => String.eqb (key_of x) k) l).
Proof.
  unfold Dict.of_list. rewrite (find_foldl l [] k). simpl.
  by destruct (last _).
Qed.

Lemma mem_of_list l k :
  Dict.mem (Dict.of_list key_of l) k = true <-> exists x, x ∈ l /\ key_of x = k.
Proof.
  unfold Dict.mem. rewrite find_of_list.
  destruct (last _) as [x|] eqn:E.
  - split; [intros _ | done].
    apply last_Some_elem_of, list_elem_of_In, filter_In in E as [Hin Hk].
    exists x. split; [by apply list_elem_of_In|]. by apply String.eqb_eq.
  - apply last_None in E. split; [done|]. intros (x & Hin & Hk).
    assert (Hx : In x (List.filter (fun x => String.eqb (key_of x) k) l)).
    { apply filter_In. split; [by apply list_elem_of_In|]. by apply String.eqb_eq. }
    rewrite E in Hx. destruct Hx.
Qed.

Lemma foldl_step_values d0 d :
  NoDup (d0 ++ d).*1 -> keyed d -> foldl step d0 (Dict.values d) = d0 ++ d.
Proof.
  revert d0. induction d as [|[k v] d IH]; intros d0 Hnd Hk; simpl.
  - by rewrite app_nil_r.
  - inversion Hk as [|? ? Hkv Hk']; subst. simpl in Hkv.
    change (step d0 v) with (Dict.set d0 (key_of v) v). rewrite Hkv, set_fresh.
    + rewrite IH; [by rewrite <- app_assoc | by rewrite <- app_assoc | done].
    + rewrite fmap_app in Hnd. apply NoDup_app in Hnd as (_ & Hdisj & _).
      intros Hin. apply (Hdisj k Hin). simpl. apply elem_of_cons. by left.
Qed.

(** Writing a dict out as the list of its values and reading it back by
    key gives the same dict. *)
Lemma of_list_values d :
  NoDup d.*1 -> keyed d -> Dict.of_list key_of (Dict.values d) = d.
Proof. intros. by apply (foldl_step_values []). Qed.

Lemma values_of_list_NoDup l :
  NoDup (key_of <$> Dict.values (Dict.of_list key_of l)).
Proof.
  pose proof (of_list_NoDup l) as Hnd. pose proof (of_list_keyed l) as Hk.
  replace (key_of <$> Dict.values (Dict.of_list key_of l))
    with (Dict.of_list key_of l).*1; [done|].
  unfold Dict.values. rewrite <- list_fmap_compose.
  apply Forall_fmap_ext_1. eapply Forall_impl; [exact Hk|]. by intros [].
Qed.

(** A list without repeated keys survives the round trip unchanged. *)
Lemma values_of_list_id l :
  NoDup (key_of <$> l) -> Dict.values (Dict.of_list key_of l) = l.
Proof.
  intros Hnd. unfold Dict.of_list.
  enough (Hg : forall d0, NoDup (d0.*1 ++ (key_of <$> l)) ->
             Dict.values (foldl step d0 l) = Dict.values d0 ++ l)
    by (apply (Hg [] Hnd)).
  clear Hnd. induction l as [|x l IH]; intros d0 Hnd; simpl.
  - by rewrite app_nil_r.
  - rewrite IH.
    + unfold Dict.step. rewrite set_fresh.
      * unfold Dict.values. rewrite fmap_app. simpl. by rewrite <- app_assoc.
      * apply NoDup_app in Hnd as (_ & Hdisj & _). intros Hin.
        apply (Hdisj _ Hin). simpl. apply elem_of_cons. by left.
    + unfold Dict.step. rewrite set_fresh.
      * rewrite fmap_app. simpl. by rewrite <- app_assoc.
      * apply NoDup_app in Hnd as (_ & Hdisj & _). intros Hin.
        apply (Hdisj _ Hin). simpl. apply elem_of_cons. by left.
Qed.
End keyed_dict_facts.

Section more_dict_facts.
Context {V : Type} (key_of : V -> string).

Lemma find_keyed (d : Dict.t V) k v :
  Dict.keyed key_of d -> Dict.find d k = Some v -> key_of v = k.
Proof.
  induction 1 as [|[k0 v0] d H0 Hd IH]; simpl; [done|].
  destruct (String.eqb_spec k0 k) as [->|]; [|done].
  by intros [= ->].
Qed.

Lemma filter_filter_other (l : list V) k k' :
  k' <> k ->
  List.filter (fun x => String.eqb (key_of x) k')
    (List.filter (fun x => negb (String.eqb (key_of x) k)) l)
  = List.filter (fun x => String.eqb (key_of x) k') l.
Proof.
  intros Hne. induction l as [|x l IH]; simpl; [done|].
  destruct (String.eqb_spec (key_of x) k) as [Hk|Hk]; simpl.
  - destruct (String.eqb_spec (key_of x) k'); [congruence | done].
  - rewrite IH. done.
Qed.

Lemma filter_filter_same (l : list V) k :
  List.filter (fun x => String.eqb (key_of x) k)
    (List.filter (fun x => negb (String.eqb (key_of x) k)) l) = [].
Proof.
  induction l as [|x l IH]; simpl; [done|].
  destruct (String.eqb_spec (key_of x) k) as [Hk|Hk]; simpl; [done|].
  destruct (String.eqb_spec (key_of x) k); [congruence | done].
Qed.
End more_dict_facts.

(** ** The wrong-answer store *)

Lemma record_of_None (wrong_answers : list WrongAnswer) qid :
  record_of wrong_answers qid = None <->
  forall r, r ∈ wrong_answers -> question_id r <> qid.
Proof.
  unfold record_of.
  pose proof (mem_of_list question_id wrong_answers qid) as Hm.
  unfold Dict.mem in Hm. destruct (Dict.find _ qid) as [r|].
  - split; [done|]. intros Hall. destruct Hm as [(x & Hx & Hk) _]; [done|].
    by destruct (Hall x Hx).
  - split; [|done]. intros _ r Hr Hk.
    destruct Hm as [_ Hm]. discriminate Hm. by exists r.
Qed.

Lemma record_of_Some_id (wrong_answers : list WrongAnswer) qid r :
  record_of wrong_answers qid = Some r -> question_id r = qid /\ r ∈ wrong_answers.
Proof.
  unfold record_of. intros H. split.
  - eapply find_keyed; [apply of_list_keyed | exact H].
  - rewrite find_of_list in H.
    apply last_Some_elem_of, list_elem_of_In, filter_In in H as [Hin _].
    by apply list_elem_of_In.
Qed.

(** C5. The mistake lifecycle of [update_wrong_answers]: a correct answer
    removes the record of the question (and leaves the store as it is when
    there was none); an incorrect answer on a question with a record adds one
    to its [wrong_count] and overwrites [last_attempt] and [last_answer]; an
    incorrect answer on a question without a record creates one with
    [wrong_count = 1] and the given answer; the records of the other
    question ids stay as they are. *)
Theorem update_wrong_answers_lifecycle
    (now : string) (store : list WrongAnswer) (qid : string) (selected : list Z) :
  record_of (update_wrong_answers now store qid selected true) qid = None
  /\ (record_of store qid = None ->
      update_wrong_answers now store qid selected true = store)
  /\ (forall r, record_of store qid = Some r ->
      record_of (update_wrong_answers now store qid selected false) qid
      = Some {| question_id := qid; wrong_count := wrong_count r + 1;
                last_attempt := now; last_answer := selected |})
  /\ (record_of store qid = None ->
      record_of (update_wrong_answers now store qid selected false) qid
      = Some {| question_id := qid; wrong_count := 1;
                last_attempt := now; last_answer := selected |})
  /\ (forall other is_correct, other <> qid ->
      record_of (update_wrong_answers now store qid selected is_correct) other
      = record_of store other).
Proof.
  assert (Hwrite : forall item k, question_id item = qid ->
            record_of (Dict.values
              (Dict.set (Dict.of_list question_id store) qid item)) k
            = if String.eqb qid k then Some item else record_of store k).
  { intros item k Hitem. unfold record_of at 1.
    rewrite of_list_values.
    - by rewrite find_set.
    - apply NoDup_keys_set, of_list_NoDup.
    - apply keyed_set; [apply of_list_keyed | done]. }
  split_and!.
  - unfold update_wrong_answers, Dict.mem.
    destruct (Dict.find _ qid) eqn:E; [|exact E].
    unfold record_of. by rewrite find_of_list, filter_filter_same.
  - unfold record_of, update_wrong_answers, Dict.mem. by intros ->.
  - intros r Hr. unfold update_wrong_answers. fold (record_of store qid).
    rewrite Hr. apply record_of_Some_id in Hr as [Hid _].
    rewrite Hwrite by done. by rewrite Hid, String.eqb_refl.
  - intros Hr. unfold update_wrong_answers. fold (record_of store qid).
    rewrite Hr, Hwrite by done. by rewrite String.eqb_refl.
  - intros other [] Hne; unfold update_wrong_answers.
    + unfold Dict.mem. destruct (Dict.find _ qid); [|done].
      unfold record_of. by rewrite !find_of_list, filter_filter_other.
    + fold (record_of store qid).
      destruct (record_of store qid) as [r|] eqn:Hr.
      * apply record_of_Some_id in Hr as [Hid _]. rewrite Hwrite by done.
        destruct (String.eqb_spec qid other); congruence.
      * rewrite Hwrite by done.
        destruct (String.eqb_spec qid other); congruence.
Qed.

(** ** The review pool *)

(** C9. The review pool is exactly the stored questions, in their order,
    whose id has a wrong-answer record: it is a subsequence of the store,
    every question in it has a record and every stored question with a
    record is in it. *)
Theorem review_pool_exact
    (all_questions : list Question) (wrong_answers : list WrongAnswer) :
  review_questions all_questions wrong_answers
  = List.filter (fun q => bool_decide (q_id q ∈ question_id <$> wrong_answers))
      all_questions
  /\ sublist (review_questions all_questions wrong_answers) all_questions
  /\ (forall q, q ∈ review_questions all_questions wrong_answers <->
        q ∈ all_questions /\ exists r, r ∈ wrong_answers /\ question_id r = q_id q).
Proof.
  assert (Hmem : forall q,
            Dict.mem (Dict.of_list question_id wrong_answers) (q_id q) = true <->
            exists r, r ∈ wrong_answers /\ question_id r = q_id q)
    by (intros; apply mem_of_list).
  split_and!.
  - unfold review_questions. apply filter_ext. intros q.
    destruct (Dict.mem _ _) eqn:E; symmetry.
    + apply bool_decide_eq_true, list_elem_of_fmap.
      apply Hmem in E as (r & Hr & Hk). by exists r.
    + apply bool_decide_eq_false. intros (r & Hk & Hr)%list_elem_of_fmap.
      assert (Dict.mem (Dict.of_list question_id wrong_answers) (q_id q) = true)
        by (apply Hmem; by exists r).
      congruence.
  - unfold review_questions. induction all_questions as [|q l IH]; simpl; [done|].
    destruct (Dict.mem _ _); by constructor.
  - intros q. unfold review_questions.
    rewrite list_elem_of_In, filter_In, <- list_elem_of_In, Hmem. done.
Qed.

(** ** [sorted] and [sorted(set(...))] *)

Lemma sorted_Permutation (l : list Z) : Py.sorted l ≡ₚ l.
Proof. apply merge_sort_Permutation. Qed.

Lemma sorted_StronglySorted (l : list Z) : StronglySorted Z.le (Py.sorted l).
Proof. apply StronglySorted_merge_sort; apply _. Qed.

Lemma elem_of_sorted (l : list Z) x : x ∈ Py.sorted l <-> x ∈ l.
Proof. by rewrite sorted_Permutation. Qed.

Lemma elem_of_sorted_set (l : list Z) x : x ∈ Py.sorted_set l <-> x ∈ l.
Proof. unfold Py.sorted_set. by rewrite elem_of_sorted, elem_of_remove_dups. Qed.

Lemma NoDup_sorted_set (l : list Z) : NoDup (Py.sorted_set l).
Proof.
  unfold Py.sorted_set. rewrite sorted_Permutation. apply NoDup_remove_dups.
Qed.

(** Two sorted lists with the same elements, counted with multiplicity, are
    the same list. *)
Lemma sorted_unique (l1 l2 : list Z) : l1 ≡ₚ l2 -> Py.sorted l1 = Py.sorted l2.
Proof.
  intros Hp. apply (StronglySorted_unique Z.le); try apply sorted_StronglySorted.
  by rewrite !sorted_Permutation.
Qed.

Lemma sorted_id (l : list Z) : StronglySorted Z.le l -> Py.sorted l = l.
Proof.
  intros Hs. apply (StronglySorted_unique Z.le);
    [apply sorted_StronglySorted | done | apply sorted_Permutation].
Qed.

Lemma StronglySorted_lt_le (l : list Z) :
  StronglySorted Z.lt l <-> StronglySorted Z.le l /\ NoDup l.
Proof.
  induction l as [|x l IH].
  - split; [intros _; split; constructor | intros _; constructor].
  - rewrite !StronglySorted_cons, NoDup_cons, IH, !Forall_forall. split.
    + intros (Hlt & Hs & Hnd). split_and!; [|done| |done].
      * intros y Hy. specialize (Hlt y Hy). lia.
      * intros Hx. specialize (Hlt x Hx). lia.
    + intros ((Hle & Hs) & Hx & Hnd). split_and!; [|done..].
      intros y Hy. specialize (Hle y Hy).
      assert (x <> y) by (intros ->; done). lia.
Qed.

(** [sorted(set(l))] is strictly ascending. *)
Lemma sorted_set_ascending (l : list Z) : StronglySorted Z.lt (Py.sorted_set l).
Proof.
  apply StronglySorted_lt_le. split; [apply sorted_StronglySorted|].
  apply NoDup_sorted_set.
Qed.

(** A strictly ascending list is a fixed point of [sorted(set(...))]. *)
Lemma sorted_set_id (l : list Z) : StronglySorted Z.lt l -> Py.sorted_set l = l.
Proof.
  intros [Hs Hnd]%StronglySorted_lt_le.
  apply (StronglySorted_unique Z.le); [apply sorted_StronglySorted | done |].
  unfold Py.sorted_set. rewrite sorted_Permutation.
  apply NoDup_Permutation; [apply NoDup_remove_dups | done |].
  intros x. apply elem_of_remove_dups.
Qed.

(** ** Scoring *)

(** The answer to one question: the comparison of [submit_test] holds
    exactly when the submitted indices and the correct answers are the same
    set. *)
Lemma is_correct_iff (ns : list Z) (question : Question) :
  NoDup (q_correct_answers question) ->
  is_correct (Py.sorted_set ns) question = true <->
  forall x, x ∈ ns <-> x ∈ q_correct_answers question.
Proof.
  intros Hnd. unfold is_correct. rewrite bool_decide_eq_true. split.
  - intros Heq x. by rewrite <- (elem_of_sorted_set ns), Heq, elem_of_sorted.
  - intros Hset. unfold Py.sorted_set. apply sorted_unique.
    apply NoDup_Permutation; [apply NoDup_remove_dups | done |].
    intros x. by rewrite elem_of_remove_dups.
Qed.

Lemma selected_of_ints (form : Form) (question : Question) (ns : list Z) :
  ints_of (form_getlist form ("q_" +:+ q_id question)) = Ok ns ->
  selected_of form question = Ok (Py.sorted_set ns).
Proof.
  unfold selected_of. destruct (form_getlist _ _) as [|s l] eqn:E.
  - simpl. by intros [= <-].
  - intros ->. done.
Qed.

(** The loop of [submit_test] returns one row per question, in order, as
    soon as every submitted value is an integer literal. *)
Lemma submit_loop_rows (P : Question -> Prop) (clock : nat -> string) (form : Form)
    (qs : list Question) :
  (forall q, q ∈ qs ->
     P q /\ exists ns, ints_of (form_getlist form ("q_" +:+ q_id q)) = Ok ns) ->
  forall turn wrong_answers rows correct,
  exists rows' wrong_answers',
    submit_loop clock form qs turn wrong_answers rows correct
    = (Ok (rows ++ rows',
           (correct + length (List.filter row_is_correct rows'))%nat),
       wrong_answers')
    /\ Forall2 (fun q row =>
         P q /\ row_question row = q /\
         exists ns, ints_of (form_getlist form ("q_" +:+ q_id q)) = Ok ns
           /\ row_selected row = Py.sorted_set ns
           /\ row_is_correct row = is_correct (Py.sorted_set ns) q
           /\ row_correct_answers row = Py.sorted (q_correct_answers q))
       qs rows'.
Proof.
  induction qs as [|q qs IH]; intros Hints turn wrong_answers rows correct.
  - exists [], wrong_answers. simpl. rewrite app_nil_r, Nat.add_0_r.
    split; [done | constructor].
  - destruct (Hints q) as [HP [ns Hns]]; [by left|].
    simpl. rewrite (selected_of_ints _ _ _ Hns).
    edestruct IH as (rows' & wrong' & Hloop & Hrows).
    { intros q' Hq'. apply Hints. by right. }
    eexists (_ :: rows'), wrong'. split.
    + rewrite Hloop. rewrite <- app_assoc. simpl.
      f_equal. f_equal. f_equal.
      destruct (is_correct (Py.sorted_set ns) q); simpl; lia.
    + constructor; [|exact Hrows]. simpl. split_and!; [done..|]. by exists ns.
Qed.

(** C2. Scoring is exact set equality: for every question of a submitted
    session (a canonical question: its correct answers hold no duplicate),
    the row of the results is marked correct if and only if the submitted
    choice indices, once deduplicated and sorted, are the same set as the
    correct answers of the question.  A selection that misses a correct
    index (a strict subset, or no selection at all against a non-empty
    correct set) or holds a wrong one (a strict superset) is marked
    incorrect. *)
Theorem scoring_exact (clock : nat -> string) (form : Form)
    (wrong_answers : list WrongAnswer) (sess : Session) (test : TestSession) :
  current_test sess = Some test ->
  (forall q, q ∈ questions test -> NoDup (q_correct_answers q)) ->
  (forall q, q ∈ questions test ->
     exists ns, ints_of (form_getlist form ("q_" +:+ q_id q)) = Ok ns) ->
  exists wrong_answers' res,
    submit_test clock form wrong_answers sess
    = (Ok (Redirect "show_results" None), wrong_answers',
       {| current_test := None; last_results := Some res |})
    /\ correct_count res = length (List.filter row_is_correct (results res))
    /\ total_questions res = length (questions test)
    /\ Forall2 (fun q row =>
         row_question row = q /\
         exists ns, ints_of (form_getlist form ("q_" +:+ q_id q)) = Ok ns
           /\ row_selected row = Py.sorted_set ns
           /\ StronglySorted Z.lt (row_selected row)
           /\ (forall x, x ∈ row_selected row <-> x ∈ ns)
           /\ (row_is_correct row = true <->
               forall x, x ∈ row_selected row <-> x ∈ q_correct_answers q)
           /\ ((exists x, x ∈ q_correct_answers q /\ x ∉ ns) ->
               row_is_correct row = false)
           /\ ((exists x, x ∈ ns /\ x ∉ q_correct_answers q) ->
               row_is_correct row = false))
       (questions test) (results res).
Proof.
  intros Htest Hcanon Hints.
  destruct (submit_loop_rows (fun q => NoDup (q_correct_answers q))
              clock form (questions test)
              (fun q Hq => conj (Hcanon q Hq) (Hints q Hq)) O wrong_answers [] O)
    as (rows & wrong' & Hloop & Hrows).
  unfold submit_test. rewrite Htest, Hloop. simpl.
  eexists _, _. split; [reflexivity|]. simpl. split_and!; [done..|].
  eapply Forall2_impl; [exact Hrows|].
  intros q row. simpl. intros (Hnd & Hq & ns & Hns & Hsel & Hok & _).
  split; [done|]. exists ns.
  assert (Hiff : row_is_correct row = true <->
                 forall x, x ∈ ns <-> x ∈ q_correct_answers q)
    by (rewrite Hok; by apply is_correct_iff).
  split_and!; [done | done | | | | |].
  - rewrite Hsel. apply sorted_set_ascending.
  - intros x. rewrite Hsel. apply elem_of_sorted_set.
  - rewrite Hiff. by setoid_rewrite Hsel; setoid_rewrite elem_of_sorted_set.
  - intros (x & Hx & Hnx). apply not_true_is_false. rewrite Hiff.
    intros Hall. by apply Hnx, Hall.
  - intros (x & Hx & Hnx). apply not_true_is_false. rewrite Hiff.
    intros Hall. by apply Hnx, Hall.
Qed.

(** ** Sampling and session size *)

Section sampling.
Context {A : Type} (rng : nat -> nat).
Implicit Types (pool : list A) (k i : nat).

Lemma sample_from_submseteq k : forall i pool, sample_from rng i pool k ⊆+ pool.
Proof.
  induction k as [|k IH]; intros i pool; simpl.
  - apply submseteq_nil_l.
  - destruct (pool !! _) as [x|] eqn:E; [|apply submseteq_nil_l].
    trans (x :: delete (rng i mod length pool)%nat pool).
    + apply submseteq_skip, IH.
    + apply Permutation_submseteq. symmetry. by apply delete_Permutation.
Qed.

Lemma sample_from_length k :
  forall i pool, (k <= length pool)%nat -> length (sample_from rng i pool k) = k.
Proof.
  induction k as [|k IH]; intros i pool Hk; simpl; [done|].
  assert (Hj : (rng i mod length pool < length pool)%nat)
    by (apply Nat.mod_upper_bound; lia).
  destruct (lookup_lt_is_Some_2 pool _ Hj) as [x Hx]. rewrite Hx. simpl.
  rewrite IH; [done|]. rewrite length_delete by eauto. lia.
Qed.

(** Sampling as many items as the population holds returns the whole
    population, in some order. *)
Lemma sample_from_full i pool : sample_from rng i pool (length pool) ≡ₚ pool.
Proof.
  apply submseteq_length_Permutation; [apply sample_from_submseteq|].
  by rewrite sample_from_length.
Qed.
End sampling.

Lemma effective_count_bounds (r : Z) (n : nat) :
  (0 < n)%nat -> 1 <= effective_count r n <= Z.of_nat n.
Proof. unfold effective_count. destruct (r =? 0); lia. Qed.

Lemma effective_count_cases (r : Z) (n : nat) :
  (0 < n)%nat ->
  (Z.of_nat n < r -> effective_count r n = Z.of_nat n)
  /\ (r = 0 -> effective_count r n = Z.of_nat n)
  /\ (r < 0 -> effective_count r n = 1)
  /\ (1 <= r <= Z.of_nat n -> effective_count r n = r).
Proof.
  intros Hn. unfold effective_count.
  destruct (Z.eqb_spec r 0); split_and!; lia.
Qed.

(** A count that is absent or is not an integer literal is read as 0. *)
Lemma requested_count_invalid (form : Form) :
  form_get form "total_questions" = None
  \/ (exists s, form_get form "total_questions" = Some s /\ Py.int s = None) ->
  requested_count form = 0.
Proof.
  unfold requested_count. intros [-> | (s & -> & ->)]; done.
Qed.

(** What [start_test] stores in the session: a sample of the effective
    size. *)
Lemma start_test_spec (rng : nat -> nat) (now : string) (m : Mode)
    (pool : list Question) (r : Z) (sess : Session) :
  pool <> [] ->
  exists selected,
    start_test rng now m pool r sess
    = Ok (Redirect "take_test" None,
          {| current_test := Some {| questions := selected;
                                     timestamp := now; mode := m |};
             last_results := last_results sess |})
    /\ selected = sample_from rng O pool (Z.to_nat (effective_count r (length pool)))
    /\ Z.of_nat (length selected) = effective_count r (length pool)
    /\ selected ⊆+ pool.
Proof.
  intros Hpool.
  assert (Hn : (0 < length pool)%nat) by (destruct pool; [done | simpl; lia]).
  pose proof (effective_count_bounds r _ Hn) as Hb.
  unfold start_test, sample.
  destruct (_ && _) eqn:Hguard.
  - eexists. split; [reflexivity|]. split; [done|]. split.
    + rewrite sample_from_length; lia.
    + apply sample_from_submseteq.
  - apply andb_false_iff in Hguard as [?%Z.leb_gt | ?%Z.leb_gt]; lia.
Qed.

(** C1, as the code has it.  For a non-empty filtered pool [new_test]
    stores a session whose size is
    [max(1, min(requested or len(pool), len(pool)))]: a request above the
    pool size gives exactly [len(pool)] questions, a request of 0 (also an
    absent or non-numeric one, read as 0) gives the whole filtered pool, a
    negative request gives exactly one question, and the questions are
    drawn from the pool without repetition. *)
Theorem session_size_clamped (rng : nat -> nat) (now : string)
    (all_questions : list Question) (form : Form) (sess : Session) :
  filter_domain (form_get form "domain") all_questions <> [] ->
  let pool := filter_domain (form_get form "domain") all_questions in
  let r := requested_count form in
  let n := Z.of_nat (length pool) in
  exists selected,
    new_test rng now POST all_questions form sess
    = Ok (Redirect "take_test" None,
          {| current_test := Some {| questions := selected;
                                     timestamp := now; mode := standard |};
             last_results := last_results sess |})
    /\ Z.of_nat (length selected)
       = Z.max 1 (Z.min (if r =? 0 then n else r) n)
    /\ selected ⊆+ pool
    /\ (n < r -> length selected = length pool /\ selected ≡ₚ pool)
    /\ (r = 0 -> selected ≡ₚ pool)
    /\ (form_get form "total_questions" = None
        \/ (exists s, form_get form "total_questions" = Some s /\ Py.int s = None) ->
        selected ≡ₚ pool)
    /\ (r < 0 -> length selected = 1%nat).
Proof.
  intros Hpool pool r n.
  assert (Hn : (0 < length pool)%nat)
    by (subst pool; destruct (filter_domain _ _); [done | simpl; lia]).
  destruct (start_test_spec rng now standard pool r sess Hpool)
    as (selected & Hstart & Hsel & Hlen & Hsub).
  destruct (effective_count_cases r _ Hn) as (Hbig & Hzero & Hneg & _).
  assert (Hfull : effective_count r (length pool) = n -> selected ≡ₚ pool).
  { intros Heq. rewrite Hsel, Heq. subst n. rewrite Nat2Z.id.
    apply sample_from_full. }
  exists selected. split_and!.
  - unfold new_test. fold pool r.
    destruct all_questions as [|q qs]; [done|].
    clear -Hstart Hpool. revert Hstart Hpool. subst r pool.
    destruct (filter_domain _ _); [done | by intros ->].
  - exact Hlen.
  - exact Hsub.
  - intros Hr. split; [|by apply Hfull, Hbig]. rewrite Hbig in Hlen by done. lia.
  - intros Hr. by apply Hfull, Hzero.
  - intros Hinv. apply Hfull, Hzero. by apply requested_count_invalid.
  - intros Hr. rewrite Hneg in Hlen by done. lia.
Qed.

(** ** Strings *)

Section strip_facts.
Context (sp : ascii -> bool).

Lemma lstrip_with_clean s c r : Py.lstrip_with sp s = String c r -> sp c = false.
Proof.
  induction s as [|c0 s IH]; simpl; [done|].
  destruct (sp c0) eqn:E; [done|]. by intros [= <- _].
Qed.

Lemma lstrip_with_id s :
  (forall c r, s = String c r -> sp c = false) -> Py.lstrip_with sp s = s.
Proof.
  destruct s as [|c s]; simpl; [done|]. intros H. by rewrite (H c s).
Qed.

Lemma rstrip_with_clean s c r :
  (forall c r, s = String c r -> sp c = false) ->
  Py.rstrip_with sp s = String c r -> sp c = false.
Proof.
  destruct s as [|c0 s]; simpl; [done|]. intros H.
  rewrite (H c0 s eq_refl).
  destruct (Py.rstrip_with sp s); intros [= <- _]; by apply (H c0 s).
Qed.

Lemma rstrip_with_idem s :
  Py.rstrip_with sp (Py.rstrip_with sp s) = Py.rstrip_with sp s.
Proof.
  induction s as [|c s IH]; simpl; [done|].
  destruct (Py.rstrip_with sp s) as [|c' r] eqn:E.
  - destruct (sp c) eqn:Ec; simpl; [done|]. by rewrite Ec.
  - simpl in *. by rewrite IH.
Qed.

Lemma strip_with_idem s :
  Py.strip_with sp (Py.strip_with sp s) = Py.strip_with sp s.
Proof.
  unfold Py.strip_with.
  rewrite (lstrip_with_id (Py.rstrip_with sp (Py.lstrip_with sp s))).
  - apply rstrip_with_idem.
  - intros c r. apply rstrip_with_clean. intros c' r'. apply lstrip_with_clean.
Qed.
End strip_facts.

(** [strip] is idempotent. *)
Lemma strip_idem (s : string) : Py.strip (Py.strip s) = Py.strip s.
Proof. apply strip_with_idem. Qed.

Lemma pretty_N_go_nonempty (x : N) (s : string) :
  (0 < x)%N \/ s <> "" -> pretty_N_go x s <> "".
Proof.
  revert s. induction (N.lt_wf_0 x) as [x _ IH]; intros s Hs.
  destruct (decide (0 < x)%N) as [Hx|Hx].
  - rewrite pretty_N_go_step by done. apply IH; [by apply N.div_lt | by right].
  - assert (x = 0%N) as -> by lia. rewrite pretty_N_go_0.
    destruct Hs; [lia | done].
Qed.

(** [str(n)] is never empty. *)
Lemma str_int_nonempty (n : Z) : Py.str_int n <> "".
Proof.
  unfold Py.str_int, pretty, pretty_Z. destruct n as [|p|p]; [done| |done].
  unfold pretty, pretty_positive, pretty, pretty_N.
  case_decide; [done|]. apply pretty_N_go_nonempty. left. lia.
Qed.

Lemma eqb_empty_false (s : string) : s <> "" <-> String.eqb s "" = false.
Proof. destruct (String.eqb_spec s ""); split; congruence. Qed.

(** [str(v)] of a true value is never empty. *)
Lemma str_truthy_nonempty (v : json) : PyVal.truthy v = true -> PyVal.str v <> "".
Proof.
  destruct v as [|b|n|f|s|xs|kvs]; simpl; try done.
  - by intros ->.
  - intros _. apply str_int_nonempty.
  - intros Hs. apply negb_true_iff in Hs. by apply eqb_empty_false.
Qed.

(** ** Correct-answer resolution *)

Lemma in_range_spec (idx : Z) (choices : list string) :
  in_range idx choices = true <-> 0 <= idx < Z.of_nat (length choices).
Proof. unfold in_range. rewrite andb_true_iff, Z.leb_le, Z.ltb_lt. done. Qed.

(** [l.index(x)] is the first position of [x] in [l]. *)
Lemma index_Some (x : string) (l : list string) (i : Z) :
  Py.index x l = Some i ->
  0 <= i < Z.of_nat (length l) /\ l !! Z.to_nat i = Some x
  /\ forall j, (j < Z.to_nat i)%nat -> l !! j <> Some x.
Proof.
  revert i. induction l as [|y l IH]; intros i; simpl; [done|].
  destruct (String.eqb_spec x y) as [->|Hne].
  - intros [= <-]. split_and!; [lia | lia | done | intros j; lia].
  - destruct (Py.index x l) as [i'|] eqn:E; [|done]. simpl. intros [= <-].
    destruct (IH i' eq_refl) as (Hr & Hl & Hfirst).
    replace (Z.to_nat (Z.succ i')) with (S (Z.to_nat i')) by lia.
    split_and!; [lia | lia | done |].
    intros [|j] Hj; simpl; [congruence | apply Hfirst; lia].
Qed.

Lemma index_None (x : string) (l : list string) : Py.index x l = None <-> x ∉ l.
Proof.
  induction l as [|y l IH]; simpl.
  - split; [intros _; apply not_elem_of_nil | done].
  - rewrite not_elem_of_cons. destruct (String.eqb_spec x y) as [->|Hne].
    + split; [done | intros [? _]; done].
    + destruct (Py.index x l); simpl.
      * split; [done|]. intros [_ Hl]. by apply IH in Hl.
      * split; [|done]. intros _. split; [done | by apply IH].
Qed.

Lemma match_text_range (stripped : string) (choices : list string) (normalized : list Z) :
  Forall (fun i => in_range i choices = true) normalized ->
  Forall (fun i => in_range i choices = true)
    (match_text stripped (Py.lower <$> choices) normalized).
Proof.
  intros Hn. unfold match_text.
  destruct (Py.index _ _) as [i|] eqn:E; [|done].
  apply Forall_app. split; [done|]. constructor; [|constructor].
  apply index_Some in E as (Hr & _). rewrite length_fmap in Hr.
  by apply in_range_spec.
Qed.

(** Every turn of the loop keeps the collected indices within the choices. *)
Lemma answer_step_range (choices : list string) (normalized : list Z) (answer : json) :
  Forall (fun i => in_range i choices = true) normalized ->
  Forall (fun i => in_range i choices = true)
    (answer_step choices (Py.lower <$> choices) normalized answer).
Proof.
  intros Hn. unfold answer_step.
  destruct answer as [|b|n|f|s|xs|kvs]; try done.
  - destruct (in_range _ _) eqn:E; [|done].
    apply Forall_app. split; [done|]. by repeat constructor.
  - destruct (in_range _ _) eqn:E; [|done].
    apply Forall_app. split; [done|]. by repeat constructor.
  - destruct (_ && _); [|by apply match_text_range].
    destruct (in_range _ _) eqn:E; [|by apply match_text_range].
    apply Forall_app. split; [done|]. by repeat constructor.
Qed.

Lemma answer_loop_range (choices : list string) (answers : list json) (normalized : list Z) :
  Forall (fun i => in_range i choices = true) normalized ->
  Forall (fun i => in_range i choices = true)
    (foldl (answer_step choices (Py.lower <$> choices)) normalized answers).
Proof.
  revert normalized. induction answers as [|a answers IH]; intros normalized Hn; simpl.
  - done.
  - by apply IH, answer_step_range.
Qed.

Lemma normalize_correct_answers_Ok (raw_answers : json) (choices : list string)
    (correct_answers : list Z) :
  normalize_correct_answers raw_answers choices = Ok correct_answers ->
  exists answers,
    answers_of raw_answers = Ok answers
    /\ correct_answers
       = Py.sorted_set (foldl (answer_step choices (Py.lower <$> choices)) [] answers).
Proof.
  unfold normalize_correct_answers.
  destruct raw_answers; cbn [answers_of mbind result_bind];
    intros [= <-]; eexists; (split; [reflexivity|]); reflexivity.
Qed.

(** What [normalize_correct_answers] returns is strictly ascending (hence
    free of duplicates) and holds only valid choice indices. *)
Lemma normalize_correct_answers_spec (raw_answers : json) (choices : list string)
    (correct_answers : list Z) :
  normalize_correct_answers raw_answers choices = Ok correct_answers ->
  StronglySorted Z.lt correct_answers
  /\ NoDup correct_answers
  /\ Forall (fun i => 0 <= i < Z.of_nat (length choices)) correct_answers.
Proof.
  intros (answers & _ & ->)%normalize_correct_answers_Ok.
  split_and!.
  - apply sorted_set_ascending.
  - apply NoDup_sorted_set.
  - apply Forall_forall. intros i Hi. apply (proj1 (elem_of_sorted_set _ _)) in Hi.
    apply in_range_spec. revert i Hi. apply Forall_forall.
    apply answer_loop_range. constructor.
Qed.

(** Integers that are valid indices are all kept, in order. *)
Lemma answer_loop_ints (choices : list string) (ns normalized : list Z) :
  Forall (fun i => 0 <= i < Z.of_nat (length choices)) ns ->
  foldl (answer_step choices (Py.lower <$> choices)) normalized (JInt <$> ns)
  = normalized ++ ns.
Proof.
  revert normalized. induction ns as [|n ns IH]; intros normalized Hns; simpl.
  - by rewrite app_nil_r.
  - inversion Hns as [|? ? Hn Hns']; subst.
    apply in_range_spec in Hn. rewrite Hn, IH by done. by rewrite <- app_assoc.
Qed.

(** ** The normaliser *)

(** When [normalize_question] returns, its result is read off the locals. *)
Lemma normalize_question_inv (raw_question : json) (q : Question) :
  normalize_question raw_question = Ok q ->
  exists raw text raw_choices,
    raw_question = JDict raw
    /\ question_text_of raw = JStr text /\ text <> ""
    /\ raw_choices_of raw = JList raw_choices
    /\ (2 <= length raw_choices)%nat
    /\ normalize_correct_answers (raw_correct_of raw) (PyVal.str <$> raw_choices)
       = Ok (q_correct_answers q)
    /\ q_correct_answers q <> []
    /\ q = {| q_id := if PyVal.truthy (question_id_of raw)
                      then PyVal.str (question_id_of raw) else derived_id text;
              q_question := Py.strip text;
              q_choices := PyVal.str <$> raw_choices;
              q_correct_answers := q_correct_answers q;
              q_domain := domain_of raw;
              q_comment := comment_of raw |}.
Proof.
  unfold normalize_question.
  destruct raw_question as [| | | | |?|raw]; try done.
  destruct (PyVal.truthy (question_text_of raw)) eqn:Htext; [|done].
  cbn [negb].
  destruct (raw_choices_of raw) as [| | | | |raw_choices|?] eqn:Hchoices; try done.
  destruct (Z.ltb_spec (Z.of_nat (length raw_choices)) 2) as [|Hlen]; [done|].
  destruct (normalize_correct_answers _ _) as [correct_answers|] eqn:Hcorrect;
    cbn [mbind result_bind]; [|done].
  destruct correct_answers as [|i correct_answers]; [done|].
  destruct (PyVal.truthy (question_id_of raw)) eqn:Hid; cbn [negb mbind result_bind].
  - destruct (question_text_of raw) as [| | | |text| |] eqn:Etext; try done.
    intros [= <-]. exists raw, text, raw_choices. simpl.
    split_and!; try done; [| lia | by rewrite Hid].
    simpl in Htext. apply negb_true_iff in Htext. by apply eqb_empty_false.
  - destruct (question_text_of raw) as [| | | |text| |] eqn:Etext; try done.
    cbn [mbind result_bind].
    intros [= <-]. exists raw, text, raw_choices. simpl.
    split_and!; try done; [| lia | by rewrite Hid].
    simpl in Htext. apply negb_true_iff in Htext. by apply eqb_empty_false.
Qed.

(** Conversely, a raw dict with a text, at least two choices and a resolved
    answer is accepted. *)
Lemma normalize_question_intro (raw : list (string * json)) (text : string)
    (raw_choices : list json) (correct_answers : list Z) :
  question_text_of raw = JStr text -> text <> "" ->
  raw_choices_of raw = JList raw_choices ->
  (2 <= length raw_choices)%nat ->
  normalize_correct_answers (raw_correct_of raw) (PyVal.str <$> raw_choices)
  = Ok correct_answers ->
  correct_answers <> [] ->
  normalize_question (JDict raw)
  = Ok {| q_id := if PyVal.truthy (question_id_of raw)
                  then PyVal.str (question_id_of raw) else derived_id text;
          q_question := Py.strip text;
          q_choices := PyVal.str <$> raw_choices;
          q_correct_answers := correct_answers;
          q_domain := domain_of raw;
          q_comment := comment_of raw |}.
Proof.
  intros Htext Hne Hchoices Hlen Hcorrect Hca.
  unfold normalize_question. rewrite Htext, Hchoices, Hcorrect.
  cbn [PyVal.truthy]. apply eqb_empty_false in Hne. rewrite Hne. cbn [negb].
  destruct (Z.ltb_spec (Z.of_nat (length raw_choices)) 2); [lia|].
  cbn [mbind result_bind].
  destruct correct_answers; [done|].
  by destruct (PyVal.truthy (question_id_of raw)).
Qed.

(** The failures of [normalize_question] the importer skips are exactly the
    three validation errors; they are raised in this order. *)
Lemma normalize_question_ValueError (raw : list (string * json)) :
  (PyVal.truthy (question_text_of raw) = false ->
   normalize_question (JDict raw) = Raise (ValueError "Question text is required"))
  /\ (PyVal.truthy (question_text_of raw) = true ->
      (forall cs, raw_choices_of raw = JList cs -> (length cs < 2)%nat) ->
      normalize_question (JDict raw)
      = Raise (ValueError "Choices must be a list with at least two options")).
Proof.
  unfold normalize_question. split.
  - by intros ->.
  - intros -> Hcs. cbn [negb].
    destruct (raw_choices_of raw) as [| | | | |cs|]; try done.
    specialize (Hcs cs eq_refl).
    destruct (Z.ltb_spec (Z.of_nat (length cs)) 2); [done | lia].
Qed.

Lemma normalize_question_canonical (raw_question : json) (q : Question) :
  normalize_question raw_question = Ok q -> canonical q.
Proof.
  intros (raw & text & raw_choices & _ & _ & _ & _ & Hlen & Hca & Hne & Hq)%
    normalize_question_inv.
  apply normalize_correct_answers_spec in Hca as (Hsorted & Hnd & Hrange).
  assert (Hcs : length (q_choices q) = length raw_choices)
    by (rewrite Hq; simpl; apply length_fmap).
  rewrite length_fmap in Hrange. unfold canonical. rewrite Hcs. done.
Qed.

(** C10. A one-letter answer whose letter index is not a valid choice index
    is not dropped: it falls through to the match by text, so the answer
    resolves to the first choice whose text is that letter (whatever the
    case), when there is one. *)
Theorem letter_out_of_range_matches_text (s : string) (choices : list string) :
  Py.len (Py.strip s) = 1 ->
  Py.contains ALPHABET (Py.upper (Py.strip s)) = true ->
  in_range (Py.ord (Py.upper (Py.strip s)) - Py.ord "A") choices = false ->
  normalize_correct_answers (JStr s) choices
  = Ok (match Py.index (Py.lower (Py.strip s)) (Py.lower <$> choices) with
        | Some idx => [idx]
        | None => []
        end).
Proof.
  intros Hlen Hletter Hrange.
  unfold normalize_correct_answers. cbn [answers_of mbind result_bind foldl].
  unfold answer_step. rewrite Hlen, Hletter, Hrange. cbn [Z.eqb Pos.eqb andb].
  unfold match_text. by destruct (Py.index _ _) as [idx|].
Qed.

Lemma letter_out_of_range_example :
  (Py.len (Py.strip " z ") = 1
   /\ Py.contains ALPHABET (Py.upper (Py.strip " z ")) = true
   /\ in_range (Py.ord (Py.upper (Py.strip " z ")) - Py.ord "A") ["x"; "Z"] = false)
  /\ normalize_correct_answers (JStr " z ") ["x"; "Z"] = Ok [1].
Proof.
  split; [by vm_compute|].
  exact (letter_out_of_range_matches_text " z " ["x"; "Z"]
           eq_refl eq_refl eq_refl).
Defined.

(** C7, as the code has it.  The code reads
    [raw.get("id") or raw.get("uuid")] and tests the result for truth.  A
    record whose [id] is a true value keeps the string form of that value
    unchanged; one whose [id] is absent or a false value and whose [uuid]
    is a true value keeps the string form of the [uuid].  A record with no
    true value under either key, so also one that supplies [0], [false],
    an empty string or [null], gets an id derived from its question text
    alone: two such records with the same text get the same id, whatever
    their choices, domain or comment. *)
Theorem derived_id_deterministic
    (raw1 raw2 : list (string * json)) (q1 q2 : Question) :
  normalize_question (JDict raw1) = Ok q1 ->
  normalize_question (JDict raw2) = Ok q2 ->
  (PyVal.truthy (PyVal.get raw1 "id") = true ->
   q_id q1 = PyVal.str (PyVal.get raw1 "id"))
  /\ (PyVal.truthy (PyVal.get raw1 "id") = false ->
      PyVal.truthy (PyVal.get raw1 "uuid") = true ->
      q_id q1 = PyVal.str (PyVal.get raw1 "uuid"))
  /\ (PyVal.truthy (question_id_of raw1) = false ->
      exists text, question_text_of raw1 = JStr text /\ q_id q1 = derived_id text)
  /\ (PyVal.truthy (question_id_of raw1) = false ->
      PyVal.truthy (question_id_of raw2) = false ->
      question_text_of raw1 = question_text_of raw2 ->
      q_id q1 = q_id q2).
Proof.
  intros (r1 & text1 & cs1 & [= <-] & Ht1 & _ & _ & _ & _ & _ & Hq1)%
    normalize_question_inv.
  intros (r2 & text2 & cs2 & [= <-] & Ht2 & _ & _ & _ & _ & _ & Hq2)%
    normalize_question_inv.
  rewrite Hq1, Hq2. cbn [q_id].
  split_and!.
  - intros H. unfold question_id_of, PyVal.or. rewrite H. by rewrite H.
  - intros H H'. unfold question_id_of, PyVal.or. rewrite H. by rewrite H'.
  - intros ->. by exists text1.
  - intros -> -> Htext. rewrite Ht1, Ht2 in Htext. by injection Htext as ->.
Qed.

Lemma derived_id_example :
  let raw1 := [("question", JStr "Which layer?");
               ("choices", JList [JStr "one"; JStr "two"]);
               ("answer", JStr "A"); ("domain", JStr "Networks")] in
  let raw2 := [("text", JStr "Which layer?");
               ("options", JList [JStr "x"; JStr "y"; JStr "z"]);
               ("answers", JList [JInt 2]); ("comment", JStr "see RFC")] in
  exists q1 q2,
    normalize_question (JDict raw1) = Ok q1
    /\ normalize_question (JDict raw2) = Ok q2
    /\ q_choices q1 <> q_choices q2
    /\ q_id q1 = q_id q2.
Proof.
  intros raw1 raw2.
  destruct (normalize_question (JDict raw1)) as [q1|] eqn:E1; [|by vm_compute in E1].
  destruct (normalize_question (JDict raw2)) as [q2|] eqn:E2; [|by vm_compute in E2].
  exists q1, q2. split_and!; [done | done | |].
  - vm_compute in E1, E2. injection E1 as <-. injection E2 as <-. done.
  - by apply (derived_id_deterministic raw1 raw2 q1 q2 E1 E2).
Defined.

(** C7 as the specification words it fails for a record that supplies an
    id which is a false value: the record below supplies the id [0], whose
    string form is ["0"], and is stored under the id derived from its text;
    the same holds for a [uuid] of [0]. *)
Lemma supplied_false_id_is_replaced :
  let raw := [("id", JInt 0); ("question", JStr "Q");
              ("choices", JList [JStr "a"; JStr "b"]); ("answer", JStr "A")] in
  let raw' := [("uuid", JInt 0); ("question", JStr "Q");
               ("choices", JList [JStr "a"; JStr "b"]); ("answer", JStr "A")] in
  let q := {| q_id := "36d99bff-204e-58e0-8ccf-a60e322e451e"; q_question := "Q";
              q_choices := ["a"; "b"]; q_correct_answers := [0];
              q_domain := "General"; q_comment := "" |} in
  PyVal.find raw "id" = Some (JInt 0)
  /\ PyVal.str (JInt 0) = "0"
  /\ normalize_question (JDict raw) = Ok q
  /\ normalize_question (JDict raw') = Ok q
  /\ q_id q = derived_id "Q"
  /\ q_id q <> "0".
Proof. by vm_compute. Qed.

(** ** The importer *)

(** One turn of the import loop, case by case. *)
Lemma import_step_spec (d : Dict.t Question) (i u : nat) (raw_question : json) :
  (forall msg, normalize_question raw_question = Raise (ValueError msg) ->
     import_step (d, i, u) raw_question = Ok (d, i, u))
  /\ (forall q, normalize_question raw_question = Ok q ->
        Dict.mem d (q_id q) = true ->
        import_step (d, i, u) raw_question = Ok (Dict.set d (q_id q) q, i, S u))
  /\ (forall q, normalize_question raw_question = Ok q ->
        Dict.mem d (q_id q) = false ->
        import_step (d, i, u) raw_question = Ok (Dict.set d (q_id q) q, S i, u))
  /\ (forall e, normalize_question raw_question = Raise e ->
        (forall msg, e <> ValueError msg) ->
        import_step (d, i, u) raw_question = Raise e).
Proof.
  unfold import_step. split_and!.
  - by intros msg ->.
  - by intros q -> ->.
  - by intros q -> ->.
  - intros e -> He. destruct e; [by destruct (He msg) | done | done].
Qed.

Lemma count_fresh_ext (s1 s2 : list string) (qs : list Question) :
  (forall k, k ∈ s1 <-> k ∈ s2) -> count_fresh s1 qs = count_fresh s2 qs.
Proof.
  revert s1 s2. induction qs as [|q qs IH]; intros s1 s2 Hs; simpl; [done|].
  rewrite (bool_decide_ext _ _ (Hs (q_id q))).
  case_bool_decide; [by apply IH|]. f_equal. apply IH.
  intros k. rewrite !elem_of_cons, Hs. done.
Qed.

Lemma count_fresh_le (seen : list string) (qs : list Question) :
  (count_fresh seen qs <= length qs)%nat.
Proof.
  revert seen. induction qs as [|q qs IH]; intros seen; simpl; [done|].
  case_bool_decide.
  - specialize (IH seen). lia.
  - specialize (IH (q_id q :: seen)). lia.
Qed.

Lemma count_fresh_known (seen : list string) (qs : list Question) :
  (forall q, q ∈ qs -> q_id q ∈ seen) -> count_fresh seen qs = O.
Proof.
  induction qs as [|q qs IH]; intros Hqs; simpl; [done|].
  rewrite bool_decide_eq_true_2 by (apply Hqs; by left).
  apply IH. intros q' Hq'. apply Hqs. by right.
Qed.

Lemma count_fresh_new (seen : list string) (qs : list Question) :
  NoDup (q_id <$> qs) -> (forall q, q ∈ qs -> q_id q ∉ seen) ->
  count_fresh seen qs = length qs.
Proof.
  revert seen. induction qs as [|q qs IH]; intros seen Hnd Hnew; simpl; [done|].
  rewrite fmap_cons in Hnd. apply NoDup_cons in Hnd as [Hq Hnd].
  rewrite bool_decide_eq_false_2 by (apply Hnew; by left).
  f_equal. apply IH; [done|]. intros q' Hq'. rewrite not_elem_of_cons. split.
  - intros Heq. apply Hq. rewrite <- Heq. by apply list_elem_of_fmap_2.
  - apply Hnew. by right.
Qed.

Lemma accepted_cons (raw_question : json) (items : list json) :
  accepted (raw_question :: items)
  = match normalize_question raw_question with
    | Ok question => question :: accepted items
    | Raise _ => accepted items
    end.
Proof. unfold accepted. simpl. by destruct (normalize_question raw_question). Qed.

(** The loop runs to its end exactly when no record raises anything but a
    [ValueError]; it then has upserted the accepted records in order,
    counting as imported those whose id was new when they were reached and
    as updated the others. *)
Lemma import_loop_Ok (items : list json) :
  Forall validates items ->
  forall (d : Dict.t Question) (i u : nat),
  exists i' u',
    import_loop items (d, i, u)
    = Ok (foldl (Dict.step q_id) d (accepted items), i', u')
    /\ i' = (i + count_fresh d.*1 (accepted items))%nat
    /\ (i' + u' = i + u + length (accepted items))%nat.
Proof.
  induction 1 as [|raw items Hraw Hitems IH]; intros d i u.
  - exists i, u. simpl. split_and!; [done | lia | lia].
  - unfold validates in Hraw. rewrite accepted_cons.
    cbn [import_loop]. unfold import_step.
    destruct (normalize_question raw) as [q|[msg| |]] eqn:Hn; try done.
    + destruct (Dict.mem d (q_id q)) eqn:Hmem; cbn [mbind result_bind].
      * destruct (IH (Dict.set d (q_id q) q) i (S u)) as (i' & u' & -> & Hi & Hu).
        exists i', u'. split; [done|]. cbn [count_fresh length].
        rewrite keys_set, Hmem in Hi. apply mem_keys in Hmem.
        rewrite bool_decide_eq_true_2 by done.
        split; [done | lia].
      * destruct (IH (Dict.set d (q_id q) q) (S i) u) as (i' & u' & -> & Hi & Hu).
        exists i', u'. split; [done|]. cbn [count_fresh length].
        assert (Hnot : q_id q ∉ d.*1).
        { intros Hin%mem_keys. congruence. }
        rewrite bool_decide_eq_false_2 by done.
        rewrite keys_set, Hmem in Hi.
        rewrite (count_fresh_ext _ (q_id q :: d.*1)) in Hi.
        -- split; [lia | lia].
        -- intros k. rewrite elem_of_app, !elem_of_cons.
           split; [intros [?|[?|?%elem_of_nil]] | intros [?|?]]; tauto.
    + cbn [mbind result_bind]. apply IH.
Qed.

Lemma import_loop_validates (items : list json) (st st' : Dict.t Question * nat * nat) :
  import_loop items st = Ok st' -> Forall validates items.
Proof.
  revert st. induction items as [|raw items IH]; intros st; simpl; [by constructor|].
  destruct (import_step st raw) as [st1|] eqn:Hstep; cbn [mbind result_bind]; [|done].
  intros Hloop. constructor; [|by eapply IH].
  unfold validates. unfold import_step in Hstep. destruct st as [[d i] u].
  by destruct (normalize_question raw) as [q|[msg| |]].
Qed.

Lemma foldl_step_of_list {V : Type} (key_of : V -> string) (l1 l2 : list V) :
  foldl (Dict.step key_of) (Dict.of_list key_of l1) l2 = Dict.of_list key_of (l1 ++ l2).
Proof. unfold Dict.of_list. by rewrite foldl_app. Qed.

Lemma elem_of_values_of_list {V : Type} (key_of : V -> string) (l : list V) (x : V) :
  x ∈ Dict.values (Dict.of_list key_of l) -> x ∈ l.
Proof.
  unfold Dict.of_list.
  enough (H : forall d, x ∈ Dict.values (foldl (Dict.step key_of) d l) ->
                        x ∈ Dict.values d \/ x ∈ l).
  { intros Hx. destruct (H [] Hx) as [Hnil|]; [|done].
    by apply elem_of_nil in Hnil. }
  induction l as [|y l IH]; intros d; simpl; [by left|].
  intros [Hd|Hl]%IH; [|right; by right].
  apply elem_of_values_set in Hd as [->|Hd]; [right; by left | by left].
Qed.

(** What a successful import leaves in the store. *)
Lemma import_questions_Ok (store : list Question) (raw_data : json)
    (items : list json) :
  import_items raw_data = Ok items ->
  Forall validates items ->
  exists stats,
    import_questions store raw_data
    = (Ok stats, Dict.values (Dict.of_list q_id (store ++ accepted items)))
    /\ imported stats
       = count_fresh (Dict.of_list q_id store).*1 (accepted items)
    /\ (imported stats + updated stats = length (accepted items))%nat.
Proof.
  intros Hitems Hval. unfold import_questions. rewrite Hitems.
  cbn [mbind result_bind].
  destruct (import_loop_Ok items Hval (Dict.of_list q_id store) O O)
    as (i' & u' & -> & Hi & Hu).
  rewrite foldl_step_of_list. eexists. split; [reflexivity|]. simpl.
  split; [done | lia].
Qed.

Lemma import_questions_inv (store store' : list Question) (raw_data : json)
    (stats : ImportStats) :
  import_questions store raw_data = (Ok stats, store') ->
  exists items,
    import_items raw_data = Ok items /\ Forall validates items
    /\ store' = Dict.values (Dict.of_list q_id (store ++ accepted items)).
Proof.
  intros H0. pose proof H0 as H. unfold import_questions in H.
  destruct (import_items raw_data) as [items|] eqn:Hitems;
    cbn [mbind result_bind] in H; [|done].
  destruct (import_loop items _) as [[[d i] u]|] eqn:Hloop; [|done].
  pose proof (import_loop_validates _ _ _ Hloop) as Hval.
  destruct (import_questions_Ok store raw_data items Hitems Hval)
    as (stats' & Hok & _).
  exists items. split_and!; [done..|]. rewrite H0 in Hok. by injection Hok.
Qed.

(** An import that raises leaves the store as it was. *)
Lemma import_questions_Raise (store : list Question) (raw_data : json) (e : exn) :
  (import_questions store raw_data).1 = Raise e ->
  (import_questions store raw_data).2 = store.
Proof.
  unfold import_questions.
  destruct (_ ≫= _) as [[[d i] u]|]; simpl; [done | done].
Qed.

Lemma elem_of_accepted (items : list json) (q : Question) :
  q ∈ accepted items <->
  exists raw_question, raw_question ∈ items /\ normalize_question raw_question = Ok q.
Proof.
  unfold accepted. rewrite list_elem_of_omap. split.
  - intros (raw & Hin & Hq). exists raw. split; [done|].
    destruct (normalize_question raw); by simplify_eq.
  - intros (raw & Hin & Hq). exists raw. split; [done|]. by rewrite Hq.
Qed.

(** C6. The canonical-question invariant.  Every question produced by
    normalisation has a non-empty, duplicate-free, strictly ascending list
    of correct answers, each a valid index into its choices, and at least
    two choices.  After an import that returns, the ids of the stored
    questions are pairwise distinct, and every stored question was in the
    store before or is the normalisation of a record (hence canonical); an
    import that raises leaves the store as it was. *)
Theorem canonical_question_invariant :
  (forall raw_question q, normalize_question raw_question = Ok q -> canonical q)
  /\ (forall store raw_data,
        (forall stats, (import_questions store raw_data).1 = Ok stats ->
           NoDup (q_id <$> (import_questions store raw_data).2))
        /\ (NoDup (q_id <$> store) ->
            NoDup (q_id <$> (import_questions store raw_data).2))
        /\ (forall q, q ∈ (import_questions store raw_data).2 ->
              q ∈ store
              \/ (canonical q /\
                  exists raw_question, normalize_question raw_question = Ok q))
        /\ (Forall canonical store ->
            Forall canonical (import_questions store raw_data).2)).
Proof.
  split; [apply normalize_question_canonical|].
  intros store raw_data.
  assert (Hin : forall q, q ∈ (import_questions store raw_data).2 ->
            q ∈ store
            \/ (canonical q /\
                exists raw_question, normalize_question raw_question = Ok q)).
  { intros q. destruct (import_questions store raw_data) as [[stats|e] store'] eqn:E.
    - apply import_questions_inv in E as (items & _ & _ & ->). simpl.
      intros [Hq|Hq]%elem_of_values_of_list%elem_of_app; [by left | right].
      apply elem_of_accepted in Hq as (raw & _ & Hq).
      split; [by eapply normalize_question_canonical | by exists raw].
    - pose proof (import_questions_Raise store raw_data e) as Hr.
      rewrite E in Hr. simpl in *. rewrite Hr by done. by left. }
  assert (Hok : forall stats, (import_questions store raw_data).1 = Ok stats ->
            NoDup (q_id <$> (import_questions store raw_data).2)).
  { intros stats. destruct (import_questions store raw_data) as [res store'] eqn:E.
    simpl. intros ->.
    apply import_questions_inv in E as (items & _ & _ & ->).
    apply values_of_list_NoDup. }
  split_and!; [done | | done |].
  - intros Hnd. destruct (import_questions store raw_data).1 as [stats|e] eqn:E.
    + by eapply Hok.
    + by rewrite (import_questions_Raise store raw_data e).
  - intros Hall. apply Forall_forall. intros q [Hq|[Hq _]]%Hin; [|done].
    by eapply Forall_forall in Hall.
Qed.

(** The payload of C8's counterexample: an object that has neither a
    [questions] nor a [data] field is not refused; it is an empty batch. *)
Lemma object_without_questions_is_accepted :
  let record := JDict [("question", JStr "Q"); ("choices", JList [JStr "a"; JStr "b"]);
                       ("answer", JStr "A")] in
  let payload := [("items", JList [record])] in
  PyVal.find payload "questions" = None
  /\ PyVal.find payload "data" = None
  /\ import_questions [] (JDict payload)
     = (Ok {| imported := 0; updated := 0 |}, []).
Proof. by vm_compute. Qed.

(** C8, as the code has it.  A payload that is neither a list nor an
    object, and an object whose first true value among [questions] and
    [data] is neither a list nor an object, make the import fail with the
    format error, the store left as it was: nothing is written before the
    error is raised.  An object in which neither field holds a true value is
    an empty batch: nothing is imported and no error is raised. *)
Theorem import_format_error_atomic (store : list Question) (raw_data : json) :
  ((forall l, raw_data <> JList l) -> (forall d, raw_data <> JDict d) ->
   import_questions store raw_data
   = (Raise (ValueError "Unsupported format. Expected a list of questions."), store))
  /\ (forall d items,
        raw_data = JDict d ->
        PyVal.or (PyVal.get d "questions") (PyVal.get d "data") = items ->
        PyVal.truthy items = true ->
        (forall l, items <> JList l) -> (forall d', items <> JDict d') ->
        import_questions store raw_data
        = (Raise (ValueError "Unsupported format. Expected a list of questions."), store))
  /\ (forall d,
        raw_data = JDict d ->
        PyVal.truthy (PyVal.get d "questions") = false ->
        PyVal.truthy (PyVal.get d "data") = false ->
        import_questions store raw_data
        = (Ok {| imported := 0; updated := 0 |},
           Dict.values (Dict.of_list q_id store))).
Proof.
  split_and!.
  - intros Hl Hd. unfold import_questions, import_items.
    destruct raw_data as [| | | | |l|d];
      first [done | by destruct (Hl l) | by destruct (Hd d)].
  - intros d items -> Hitems Htrue Hl Hd.
    unfold import_questions, import_items.
    rewrite Hitems. unfold PyVal.or. rewrite Htrue.
    destruct items as [| | | | |l|d'];
      first [done | by destruct (Hl l) | by destruct (Hd d')].
  - intros d -> Hq Hdata. unfold import_questions, import_items.
    unfold PyVal.or. rewrite Hq. by rewrite Hdata.
Qed.

Lemma import_format_error_example :
  import_questions [] (JDict [("questions", JInt 3)])
  = (Raise (ValueError "Unsupported format. Expected a list of questions."), [])
  /\ import_questions [] (JStr "questions")
     = (Raise (ValueError "Unsupported format. Expected a list of questions."), []).
Proof.
  split.
  - apply (proj1 (proj2 (import_format_error_atomic [] (JDict [("questions", JInt 3)])))
            [("questions", JInt 3)] (JInt 3)); done.
  - by apply (proj1 (import_format_error_atomic [] (JStr "questions"))).
Defined.

(** C3, at the failing input.  A record whose question text is a number
    passes the checks that raise [ValueError] and then fails in [uuid5] with
    a [TypeError], which the loop does not catch: the import is aborted, the
    valid record of the same batch is lost and nothing is written.  A record
    that is not an object aborts the import in the same way, with an
    [AttributeError]. *)
Theorem import_aborted_by_malformed_record :
  let good := JDict [("id", JStr "q1"); ("question", JStr "Q");
                     ("choices", JList [JStr "a"; JStr "b"]); ("answer", JStr "A")] in
  let bad := JDict [("question", JInt 5); ("choices", JList [JStr "a"; JStr "b"]);
                    ("answer", JStr "A")] in
  let q := {| q_id := "q1"; q_question := "Q"; q_choices := ["a"; "b"];
              q_correct_answers := [0]; q_domain := "General"; q_comment := "" |} in
  normalize_question good = Ok q
  /\ import_questions [] (JList [good]) = (Ok {| imported := 1; updated := 0 |}, [q])
  /\ normalize_question bad = Raise TypeError
  /\ import_questions [] (JList [good; bad]) = (Raise TypeError, [])
  /\ import_questions [] (JList [JStr "not a record"; good]) = (Raise AttributeError, []).
Proof. repeat split; vm_compute; reflexivity. Qed.

Lemma elem_of_keys_of_list (store : list Question) (k : string) :
  k ∈ (Dict.of_list q_id store).*1 <-> k ∈ q_id <$> store.
Proof.
  rewrite <- mem_keys, mem_of_list, list_elem_of_fmap. split.
  - intros (q & Hq & <-). by exists q.
  - intros (q & -> & Hq). by exists q.
Qed.

(** Importer counts and upsert, for a batch the loop gets through (every
    record normalises or fails with a [ValueError]).  The records that fail
    are skipped and counted as neither imported nor updated; the others are
    upserted in order, each replacing in full what the store held under its
    id; [imported] counts the records whose id was new when they were
    reached and [updated] the others: in particular a record whose id is in
    the load-time store is counted as updated. *)
Theorem import_counts_and_upsert (store : list Question) (raw_data : json)
    (items : list json) :
  import_items raw_data = Ok items ->
  Forall validates items ->
  exists stats store',
    import_questions store raw_data = (Ok stats, store')
    /\ store' = Dict.values (Dict.of_list q_id (store ++ accepted items))
    /\ imported stats = count_fresh (q_id <$> store) (accepted items)
    /\ (imported stats + updated stats = length (accepted items))%nat
    /\ (forall q, q ∈ store' <->
          last (List.filter (fun x => String.eqb (q_id x) (q_id q))
                  (store ++ accepted items)) = Some q)
    /\ ((forall q, q ∈ accepted items -> q_id q ∈ q_id <$> store) ->
        imported stats = O /\ updated stats = length (accepted items))
    /\ (NoDup (q_id <$> accepted items) ->
        (forall q, q ∈ accepted items -> q_id q ∉ q_id <$> store) ->
        imported stats = length (accepted items) /\ updated stats = O).
Proof.
  intros Hitems Hval.
  destruct (import_questions_Ok store raw_data items Hitems Hval)
    as (stats & Himport & Hi & Hsum).
  rewrite (count_fresh_ext _ _ _ (elem_of_keys_of_list store)) in Hi.
  eexists stats, _. split; [exact Himport|]. split_and!; [done..| | |].
  - intros q. split.
    + intros Hq.
      apply list_elem_of_fmap in Hq as ([k q'] & -> & Hq). simpl.
      rewrite <- find_of_list.
      pose proof (of_list_keyed q_id (store ++ accepted items)) as Hk.
      eapply Forall_forall in Hk; [|exact Hq]. simpl in Hk. rewrite Hk.
      apply NoDup_find_elem; [apply of_list_NoDup | done].
    + rewrite <- find_of_list. apply find_Some_values.
  - intros Hknown. rewrite (count_fresh_known _ _ Hknown) in Hi. lia.
  - intros Hnd Hnew. rewrite (count_fresh_new _ _ Hnd Hnew) in Hi. lia.
Qed.

Lemma keys_values_of_list {V : Type} (key_of : V -> string) (l : list V) :
  key_of <$> Dict.values (Dict.of_list key_of l) = (Dict.of_list key_of l).*1.
Proof.
  unfold Dict.values. rewrite <- list_fmap_compose.
  apply Forall_fmap_ext_1.
  eapply Forall_impl; [apply (of_list_keyed key_of l)|]. by intros [].
Qed.

Lemma elem_of_ids_import (l : list Question) (q : Question) :
  q ∈ l -> q_id q ∈ q_id <$> Dict.values (Dict.of_list q_id l).
Proof.
  intros Hq. rewrite keys_values_of_list. apply mem_keys, mem_of_list.
  by exists q.
Qed.

(** Importing a batch of new questions with distinct ids and importing the
    same batch again: the first import counts every accepted record as
    imported, the second counts every one as updated. *)
Theorem reimport_counts (store : list Question) (raw_data : json) (items : list json) :
  import_items raw_data = Ok items ->
  Forall validates items ->
  NoDup (q_id <$> accepted items) ->
  (forall q, q ∈ accepted items -> q_id q ∉ q_id <$> store) ->
  exists store1 store2,
    import_questions store raw_data
    = (Ok {| imported := length (accepted items); updated := 0 |}, store1)
    /\ import_questions store1 raw_data
       = (Ok {| imported := 0; updated := length (accepted items) |}, store2).
Proof.
  intros Hitems Hval Hnd Hnew.
  destruct (import_questions_Ok store raw_data items Hitems Hval)
    as ([i1 u1] & H1 & Hi1 & Hsum1).
  set (store1 := Dict.values (Dict.of_list q_id (store ++ accepted items))) in *.
  destruct (import_questions_Ok store1 raw_data items Hitems Hval)
    as ([i2 u2] & H2 & Hi2 & Hsum2).
  rewrite (count_fresh_ext _ _ _ (elem_of_keys_of_list store)) in Hi1.
  rewrite (count_fresh_new _ _ Hnd Hnew) in Hi1.
  rewrite (count_fresh_ext _ _ _ (elem_of_keys_of_list store1)) in Hi2.
  rewrite count_fresh_known in Hi2.
  - simpl in *. eexists _, _. rewrite H1, H2. split; do 3 f_equal; lia.
  - intros q Hq. apply elem_of_ids_import, elem_of_app. by right.
Qed.

(** ** Idempotence of the normaliser *)

Lemma string_of_list_ascii_nonempty (l : list ascii) :
  l <> [] -> string_of_list_ascii l <> "".
Proof. by destruct l. Qed.

Lemma derived_id_nonempty (text : string) : derived_id text <> "".
Proof.
  unfold derived_id, Uuid.str. apply string_of_list_ascii_nonempty.
  intros H. apply (f_equal length) in H. rewrite !length_app in H.
  simpl in H. lia.
Qed.

Lemma strip_empty : Py.strip "" = "".
Proof. by vm_compute. Qed.

Lemma general_fixed : "General" <> "" /\ Py.strip "General" = "General".
Proof. split; [done | by vm_compute]. Qed.

Lemma strip_or_general (s : string) :
  let domain := Py.strip s in
  let domain := if String.eqb domain "" then "General" else domain in
  domain <> "" /\ Py.strip domain = domain.
Proof.
  cbv zeta. destruct (String.eqb_spec (Py.strip s) "") as [Heq|Hne].
  - apply general_fixed.
  - split; [done | apply strip_idem].
Qed.

Lemma domain_of_fixed (raw : list (string * json)) :
  domain_of raw <> "" /\ Py.strip (domain_of raw) = domain_of raw.
Proof.
  unfold domain_of.
  destruct (PyVal.get_default raw "domain" (JStr "General")) as [|b|n|f|s|xs|kvs];
    cbv zeta; [apply general_fixed | apply strip_or_general..].
Qed.

Lemma comment_of_fixed (raw : list (string * json)) :
  Py.strip (comment_of raw) = comment_of raw.
Proof.
  unfold comment_of.
  destruct (PyVal.or _ _) as [|b|n|f|s|xs|kvs];
    [apply strip_empty | apply strip_idem..].
Qed.

(** The locals of [normalize_question] on a canonical dict. *)
Section on_canonical_dict.
Context (q : Question).

Lemma question_text_of_to_dict :
  q_question q <> "" -> question_text_of (to_dict q) = JStr (q_question q).
Proof.
  intros H%eqb_empty_false. unfold question_text_of, PyVal.or. cbn.
  repeat (rewrite H; cbn). done.
Qed.

Lemma raw_choices_of_to_dict :
  q_choices q <> [] -> raw_choices_of (to_dict q) = JList (JStr <$> q_choices q).
Proof.
  intros H. unfold raw_choices_of, PyVal.or. cbn.
  by destruct (q_choices q).
Qed.

Lemma raw_correct_of_to_dict :
  q_correct_answers q <> [] ->
  raw_correct_of (to_dict q) = JList (JInt <$> q_correct_answers q).
Proof.
  intros H. unfold raw_correct_of, PyVal.or. cbn.
  by destruct (q_correct_answers q).
Qed.

Lemma domain_of_to_dict :
  q_domain q <> "" -> Py.strip (q_domain q) = q_domain q ->
  domain_of (to_dict q) = q_domain q.
Proof.
  intros H%eqb_empty_false Hs. unfold domain_of. cbn. by rewrite Hs, H.
Qed.

Lemma comment_of_to_dict :
  Py.strip (q_comment q) = q_comment q -> comment_of (to_dict q) = q_comment q.
Proof.
  intros Hs. unfold comment_of, PyVal.or. cbn.
  destruct (String.eqb_spec (q_comment q) "") as [Heq|Hne]; cbn.
  - by rewrite Heq.
  - apply eqb_empty_false in Hne. repeat (rewrite Hne; cbn). done.
Qed.

Lemma question_id_of_to_dict :
  q_id q <> "" -> question_id_of (to_dict q) = JStr (q_id q).
Proof.
  intros H%eqb_empty_false. unfold question_id_of, PyVal.or. cbn.
  repeat (rewrite H; cbn). done.
Qed.
End on_canonical_dict.

Lemma fmap_str_JStr (l : list string) : PyVal.str <$> (JStr <$> l) = l.
Proof. rewrite <- list_fmap_compose. by rewrite <- (list_fmap_id l) at 2. Qed.

(** Normalisation is idempotent on every result whose text is not empty:
    feeding the canonical question back returns it unchanged. *)
Theorem normalize_idempotent_nonblank (raw_question : json) (q : Question) :
  normalize_question raw_question = Ok q ->
  q_question q <> "" ->
  normalize_question (to_json q) = Ok q.
Proof.
  intros Hq Htext.
  pose proof (normalize_question_canonical _ _ Hq)
    as (Hca & _ & Hsorted & Hrange & Hlen).
  apply normalize_question_inv in Hq
    as (raw & text & cs & _ & _ & _ & _ & _ & _ & _ & Hq).
  assert (Hid : q_id q <> "").
  { rewrite Hq. cbn [q_id].
    destruct (PyVal.truthy (question_id_of raw)) eqn:E;
      [by apply str_truthy_nonempty | apply derived_id_nonempty]. }
  assert (Hdom : q_domain q <> "" /\ Py.strip (q_domain q) = q_domain q)
    by (rewrite Hq; apply domain_of_fixed).
  assert (Hcom : Py.strip (q_comment q) = q_comment q)
    by (rewrite Hq; apply comment_of_fixed).
  assert (Hstrip : Py.strip (q_question q) = q_question q)
    by (rewrite Hq; apply strip_idem).
  assert (Hcs : q_choices q <> []) by (destruct (q_choices q); [simpl in Hlen; lia | done]).
  unfold to_json.
  rewrite (normalize_question_intro (to_dict q) (q_question q)
             (JStr <$> q_choices q) (q_correct_answers q)).
  - rewrite question_id_of_to_dict, domain_of_to_dict, comment_of_to_dict by tauto.
    cbn [PyVal.truthy PyVal.str]. apply eqb_empty_false in Hid. rewrite Hid. cbn [negb].
    rewrite Hstrip, fmap_str_JStr. by destruct q.
  - by apply question_text_of_to_dict.
  - done.
  - by apply raw_choices_of_to_dict.
  - by rewrite length_fmap.
  - rewrite raw_correct_of_to_dict, fmap_str_JStr by done.
    unfold normalize_correct_answers. cbn [answers_of mbind result_bind].
    rewrite answer_loop_ints by done. cbn [app].
    by rewrite sorted_set_id.
  - done.
Qed.

(** C4, at the failing input.  A text made of white space only passes the
    test for a missing text, which is made before the text is stripped: the
    record is accepted with an empty [question], and the canonical question
    it returns is refused when fed back. *)
Theorem normalize_blank_text_not_idempotent :
  let raw := JDict [("id", JStr "q1"); ("question", JStr "   ");
                    ("choices", JList [JStr "a"; JStr "b"]); ("answer", JStr "A")] in
  let q := {| q_id := "q1"; q_question := ""; q_choices := ["a"; "b"];
              q_correct_answers := [0]; q_domain := "General"; q_comment := "" |} in
  normalize_question raw = Ok q
  /\ normalize_question (to_json q) = Raise (ValueError "Question text is required").
Proof. split; vm_compute; reflexivity. Qed.

(** ** The statements above at concrete inputs *)

(** C1 as the specification words it fails for a negative request: with two
    questions in the pool and a requested count of -1 the session holds one
    question, not the whole pool. *)
Lemma negative_count_gives_one_question :
  let qa := mkQuestion "a" "Q1" ["x"; "y"] [0] "General" "" in
  let qb := mkQuestion "b" "Q2" ["x"; "y"] [1] "General" "" in
  let form := [("total_questions", "-1")] in
  requested_count form = -1
  /\ filter_domain (form_get form "domain") [qa; qb] = [qa; qb]
  /\ new_test (fun _ => O) "t" POST [qa; qb] form (mkFlask None None)
     = Ok (Redirect "take_test" None,
           {| current_test := Some {| questions := [qa]; timestamp := "t";
                                      mode := standard |};
              last_results := None |}).
Proof. by vm_compute. Qed.

Lemma session_size_example :
  let qa := mkQuestion "a" "Q1" ["x"; "y"] [0] "Crypto" "" in
  let qb := mkQuestion "b" "Q2" ["x"; "y"] [1] "Network" "" in
  let qc := mkQuestion "c" "Q3" ["x"; "y"] [1] "Crypto" "" in
  let form := [("total_questions", "5"); ("domain", "Crypto")] in
  filter_domain (form_get form "domain") [qa; qb; qc] <> []
  /\ exists selected,
       new_test (fun i => i) "t" POST [qa; qb; qc] form (mkFlask None None)
       = Ok (Redirect "take_test" None,
             {| current_test := Some {| questions := selected; timestamp := "t";
                                        mode := standard |};
                last_results := None |})
       /\ selected ≡ₚ [qa; qc].
Proof.
  intros qa qb qc form.
  assert (Hpool : filter_domain (form_get form "domain") [qa; qb; qc] <> [])
    by (by vm_compute).
  split; [exact Hpool|].
  destruct (session_size_clamped (fun i => i) "t" [qa; qb; qc] form
              (mkFlask None None) Hpool)
    as (selected & Hnew & _ & _ & Hbig & _).
  exists selected. split; [exact Hnew|]. apply Hbig. by vm_compute.
Defined.

Lemma scoring_example :
  let q := mkQuestion "a" "Q1" ["x"; "y"; "z"] [0; 2] "General" "" in
  let test := {| questions := [q]; timestamp := "t"; mode := standard |} in
  let sess := {| current_test := Some test; last_results := None |} in
  let form := [("q_a", "2"); ("q_a", "0"); ("q_a", "2")] in
  exists wrong_answers' res,
    submit_test (fun _ => "now") form [] sess
    = (Ok (Redirect "show_results" None), wrong_answers',
       {| current_test := None; last_results := Some res |})
    /\ correct_count res = length (List.filter row_is_correct (results res))
    /\ total_questions res = 1%nat.
Proof.
  intros q test sess form.
  destruct (scoring_exact (fun _ => "now") form [] sess test eq_refl)
    as (wrong' & res & Hsubmit & Hcount & Htotal & _).
  - intros q' ->%list_elem_of_singleton. simpl. by apply (bool_decide_unpack _).
  - intros q' ->%list_elem_of_singleton. eexists. by vm_compute.
  - exists wrong', res. done.
Defined.

Lemma import_counts_example :
  let good := JDict [("id", JStr "q1"); ("question", JStr "Q");
                     ("choices", JList [JStr "a"; JStr "b"]); ("answer", JStr "A")] in
  let no_answer := JDict [("question", JStr "Q2");
                          ("choices", JList [JStr "a"; JStr "b"])] in
  exists stats store',
    import_questions [] (JList [good; no_answer; good]) = (Ok stats, store')
    /\ imported stats = 1%nat /\ updated stats = 1%nat /\ length store' = 1%nat.
Proof.
  intros good no_answer.
  destruct (import_counts_and_upsert [] (JList [good; no_answer; good])
              [good; no_answer; good] eq_refl)
    as (stats & store' & Himport & Hstore & Hi & Hsum & _).
  - repeat constructor; by vm_compute.
  - exists stats, store'. split; [exact Himport|].
    assert (Hfresh : count_fresh (q_id <$> []) (accepted [good; no_answer; good])
                     = 1%nat) by (by vm_compute).
    assert (Hlen : length (accepted [good; no_answer; good]) = 2%nat)
      by (by vm_compute).
    rewrite Hfresh in Hi. rewrite Hlen in Hsum. rewrite Hstore.
    split_and!; [done | lia | by vm_compute].
Defined.

Lemma reimport_example :
  let batch := JDict [("questions",
                 JDict [("first", JDict [("id", JInt 1); ("question", JStr "Q1");
                                         ("choices", JList [JStr "a"; JStr "b"]);
                                         ("answer", JInt 1)]);
                        ("second", JDict [("id", JInt 2); ("question", JStr "Q2");
                                          ("choices", JList [JStr "a"; JStr "b"]);
                                          ("answer", JStr "b")])])] in
  exists store1 store2,
    import_questions [] batch = (Ok {| imported := 2; updated := 0 |}, store1)
    /\ import_questions store1 batch = (Ok {| imported := 0; updated := 2 |}, store2).
Proof.
  intros batch.
  destruct (import_items batch) as [items|] eqn:Hitems; [|by vm_compute in Hitems].
  assert (Hacc : accepted items
                 = [mkQuestion "1" "Q1" ["a"; "b"] [1] "General" "";
                    mkQuestion "2" "Q2" ["a"; "b"] [1] "General" ""])
    by (vm_compute in Hitems; injection Hitems as <-; by vm_compute).
  destruct (reimport_counts [] batch items Hitems)
    as (store1 & store2 & H1 & H2).
  - vm_compute in Hitems. injection Hitems as <-. repeat constructor; by vm_compute.
  - rewrite Hacc. by apply (bool_decide_unpack _).
  - intros q _ Hq. by apply elem_of_nil in Hq.
  - exists store1, store2. rewrite Hacc in H1, H2. done.
Defined.

Lemma normalize_idempotent_example :
  let raw := JDict [("prompt", JStr " Which port? ");
                    ("options", JDict [("b", JInt 443); ("a", JInt 80)]);
                    ("correct_answer", JList [JStr "443"; JStr "B"]);
                    ("domain", JStr "  "); ("explanation", JStr " TLS ")] in
  exists q, normalize_question raw = Ok q
            /\ q_question q <> ""
            /\ normalize_question (to_json q) = Ok q.
Proof.
  intros raw.
  destruct (normalize_question raw) as [q|] eqn:E; [|by vm_compute in E].
  assert (Htext : q_question q <> "")
    by (vm_compute in E; injection E as <-; done).
  exists q. split_and!; [done | done |].
  exact (normalize_idempotent_nonblank raw q E Htext).
Defined.

(** * Further properties of the code *)

(** ** Correct-answer resolution, answer by answer *)

Lemma match_text_app (stripped : string) (lower_choices : list string) (normalized : list Z) :
  match_text stripped lower_choices normalized
  = normalized ++ match_text stripped lower_choices [].
Proof.
  unfold match_text. destruct (Py.index _ _); [done | by rewrite app_nil_r].
Qed.

(** A turn of the loop appends what the answer resolves to, whatever was
    collected before. *)
Lemma answer_step_app (choices lower_choices : list string) (normalized : list Z)
    (answer : json) :
  answer_step choices lower_choices normalized answer
  = normalized ++ answer_step choices lower_choices [] answer.
Proof.
  unfold answer_step.
  destruct answer as [|b|n|f|s|xs|kvs]; try (by rewrite app_nil_r).
  - by destruct (in_range _ _); [|rewrite app_nil_r].
  - by destruct (in_range _ _); [|rewrite app_nil_r].
  - destruct (_ && _); [|apply match_text_app].
    destruct (in_range _ _); [done | apply match_text_app].
Qed.

Lemma elem_of_answer_loop (choices lower_choices : list string) (answers : list json)
    (normalized : list Z) (i : Z) :
  i ∈ foldl (answer_step choices lower_choices) normalized answers <->
  i ∈ normalized
  \/ exists a, a ∈ answers /\ i ∈ answer_step choices lower_choices [] a.
Proof.
  revert normalized. induction answers as [|a answers IH]; intros normalized; simpl.
  - split; [by left|]. intros [?|(a & Ha & _)]; [done | by apply elem_of_nil in Ha].
  - rewrite IH, answer_step_app, elem_of_app. split.
    + intros [[?|?]|(a' & Ha' & Hi)]; [by left | right | right].
      * exists a. split; [by left | done].
      * exists a'. split; [by right | done].
    + intros [?|(a' & [->|Ha']%elem_of_cons & Hi)].
      * left. by left.
      * left. by right.
      * right. by exists a'.
Qed.

Lemma sorted_set_ext (l1 l2 : list Z) :
  (forall x, x ∈ l1 <-> x ∈ l2) -> Py.sorted_set l1 = Py.sorted_set l2.
Proof.
  intros H. unfold Py.sorted_set. apply sorted_unique.
  apply NoDup_Permutation; [apply NoDup_remove_dups..|].
  intros x. by rewrite !elem_of_remove_dups.
Qed.

(** The correct answers are a set: the result holds exactly the indices the
    single raw answers resolve to, in ascending order, so the order of the
    raw answers and their repetition make no difference. *)
Theorem correct_answers_set_semantics (answers1 answers2 : list json)
    (choices : list string) :
  (forall a, a ∈ answers1 <-> a ∈ answers2) ->
  exists correct_answers,
    normalize_correct_answers (JList answers1) choices = Ok correct_answers
    /\ normalize_correct_answers (JList answers2) choices = Ok correct_answers
    /\ StronglySorted Z.lt correct_answers
    /\ (forall i, i ∈ correct_answers <->
          exists a, a ∈ answers1
                    /\ i ∈ answer_step choices (Py.lower <$> choices) [] a).
Proof.
  intros Hsame. eexists. split; [reflexivity|].
  unfold normalize_correct_answers. cbn [answers_of mbind result_bind].
  split_and!.
  - f_equal. apply sorted_set_ext. intros i. rewrite !elem_of_answer_loop.
    split; (intros [?|(a & Ha & Hi)]; [by left | right; exists a]);
      (split; [by apply Hsame | done]).
  - apply sorted_set_ascending.
  - intros i. rewrite elem_of_sorted_set, elem_of_answer_loop. split.
    + intros [Hnil|?]; [by apply elem_of_nil in Hnil | done].
    + by right.
Qed.

Lemma correct_answers_set_example :
  (forall a, a ∈ [JStr "B"; JInt 0; JStr "b"] <-> a ∈ [JInt 0; JStr "b"; JStr "B"; JInt 0])
  /\ normalize_correct_answers (JList [JStr "B"; JInt 0; JStr "b"]) ["x"; "y"] = Ok [0; 1]
  /\ normalize_correct_answers (JList [JInt 0; JStr "b"; JStr "B"; JInt 0]) ["x"; "y"]
     = Ok [0; 1].
Proof.
  assert (Hsame : forall a, a ∈ [JStr "B"; JInt 0; JStr "b"]
                            <-> a ∈ [JInt 0; JStr "b"; JStr "B"; JInt 0]).
  { intros a. rewrite !elem_of_cons. split; intros H; tauto. }
  split; [exact Hsame|].
  destruct (correct_answers_set_semantics _ _ ["x"; "y"] Hsame)
    as (ca & H1 & H2 & _).
  assert (Hca : Ok ca = Ok [0; 1]) by (rewrite <- H1; by vm_compute).
  injection Hca as ->. done.
Defined.

(** A one-string answer.  A single letter whose index is in range resolves
    to that index, before any comparison with the choice texts (so a choice
    whose text is that letter is not looked for).  A string that is not a
    single letter resolves to the first choice whose text it equals, case
    and surrounding white space apart, and to nothing when there is none. *)
Theorem string_answer_resolution (s : string) (choices : list string) :
  (Py.len (Py.strip s) = 1 ->
   Py.contains ALPHABET (Py.upper (Py.strip s)) = true ->
   in_range (Py.ord (Py.upper (Py.strip s)) - Py.ord "A") choices = true ->
   normalize_correct_answers (JStr s) choices
   = Ok [Py.ord (Py.upper (Py.strip s)) - Py.ord "A"])
  /\ ((Py.len (Py.strip s) =? 1) && Py.contains ALPHABET (Py.upper (Py.strip s)) = false ->
      (forall idx,
         Py.index (Py.lower (Py.strip s)) (Py.lower <$> choices) = Some idx ->
         normalize_correct_answers (JStr s) choices = Ok [idx]
         /\ (Py.lower <$> choices) !! Z.to_nat idx = Some (Py.lower (Py.strip s))
         /\ forall j, (j < Z.to_nat idx)%nat ->
                      (Py.lower <$> choices) !! j <> Some (Py.lower (Py.strip s)))
      /\ (Py.lower (Py.strip s) ∉ Py.lower <$> choices ->
          normalize_correct_answers (JStr s) choices = Ok [])).
Proof.
  unfold normalize_correct_answers. cbn [answers_of mbind result_bind foldl].
  unfold answer_step. split.
  - intros -> -> ->. done.
  - intros ->. unfold match_text. split.
    + intros idx Hidx. rewrite Hidx.
      apply index_Some in Hidx as (_ & Hl & Hfirst). done.
    + intros Hnone%index_None. by rewrite Hnone.
Qed.

Lemma string_answer_example :
  normalize_correct_answers (JStr " a ") ["B"; "A"; "C"] = Ok [0]
  /\ normalize_correct_answers (JStr " Blue ") ["red"; "BLUE"; "blue"] = Ok [1]
  /\ normalize_correct_answers (JStr "green") ["red"; "blue"] = Ok [].
Proof.
  split_and!.
  - by apply (proj1 (string_answer_resolution " a " ["B"; "A"; "C"])).
  - apply (proj1 (proj2 (string_answer_resolution " Blue " ["red"; "BLUE"; "blue"])
                    eq_refl)).
    by vm_compute.
  - apply (proj2 (proj2 (string_answer_resolution "green" ["red"; "blue"]) eq_refl)).
    by apply (bool_decide_unpack _).
Defined.

(** ** The normaliser: what it refuses, and what it returns *)

(** An answer that is a false value under [correct_answers],
    [correct_answer] or [answer] (the index 0 written as a bare integer, an
    empty string or list, [false], [null]) is passed over by the chain of
    [or]: when [answers] supplies nothing the record is refused for want of
    a correct answer, while the same bare 0 under [answers], the last of the
    chain, is accepted as the first choice. *)
Theorem false_answer_counts_as_missing (raw : list (string * json)) (text : string)
    (raw_choices : list json) :
  question_text_of raw = JStr text -> text <> "" ->
  raw_choices_of raw = JList raw_choices -> (2 <= length raw_choices)%nat ->
  PyVal.truthy (PyVal.get raw "correct_answers") = false ->
  PyVal.truthy (PyVal.get raw "correct_answer") = false ->
  PyVal.truthy (PyVal.get raw "answer") = false ->
  (PyVal.get raw "answers" = JNull ->
   normalize_question (JDict raw)
   = Raise (ValueError "At least one correct answer is required"))
  /\ (PyVal.get raw "answers" = JInt 0 ->
      exists q, normalize_question (JDict raw) = Ok q /\ q_correct_answers q = [0]).
Proof.
  intros Htext Hne Hchoices Hlen H1 H2 H3.
  assert (Hraw : raw_correct_of raw = PyVal.get raw "answers").
  { unfold raw_correct_of, PyVal.or. rewrite H1, H2. by rewrite H3. }
  split; intros Hanswers.
  - unfold normalize_question. rewrite Htext, Hchoices, Hraw, Hanswers.
    cbn [PyVal.truthy]. apply eqb_empty_false in Hne. rewrite Hne. cbn [negb].
    destruct (Z.ltb_spec (Z.of_nat (length raw_choices)) 2); [lia | done].
  - assert (Hca : normalize_correct_answers (raw_correct_of raw)
                    (PyVal.str <$> raw_choices) = Ok [0]).
    { rewrite Hraw, Hanswers. unfold normalize_correct_answers.
      cbn [answers_of mbind result_bind foldl]. unfold answer_step.
      assert (Hr : in_range 0 (PyVal.str <$> raw_choices) = true).
      { apply in_range_spec. rewrite length_fmap. lia. }
      by rewrite Hr. }
    eexists. split.
    + by apply (normalize_question_intro raw text raw_choices [0]).
    + done.
Qed.

Lemma false_answer_example :
  normalize_question
    (JDict [("question", JStr "Pick"); ("choices", JList [JStr "a"; JStr "b"]);
            ("answer", JInt 0)])
  = Raise (ValueError "At least one correct answer is required")
  /\ exists q,
       normalize_question
         (JDict [("id", JStr "k"); ("question", JStr "Pick");
                 ("choices", JList [JStr "a"; JStr "b"]); ("answers", JInt 0)])
       = Ok q
       /\ q_correct_answers q = [0].
Proof.
  split.
  - apply (proj1 (false_answer_counts_as_missing
             [("question", JStr "Pick"); ("choices", JList [JStr "a"; JStr "b"]);
              ("answer", JInt 0)] "Pick" [JStr "a"; JStr "b"]
             eq_refl ltac:(done) eq_refl ltac:(simpl; lia) eq_refl eq_refl eq_refl)).
    done.
  - apply (proj2 (false_answer_counts_as_missing
             [("id", JStr "k"); ("question", JStr "Pick");
              ("choices", JList [JStr "a"; JStr "b"]); ("answers", JInt 0)]
             "Pick" [JStr "a"; JStr "b"]
             eq_refl ltac:(done) eq_refl ltac:(simpl; lia) eq_refl eq_refl eq_refl)).
    done.
Defined.

(** The fields of every normalised question: the id and the domain are
    never empty, and the text, the domain and the comment carry no
    surrounding white space (stripping them again changes nothing). *)
Theorem normalized_fields_clean (raw_question : json) (q : Question) :
  normalize_question raw_question = Ok q ->
  q_id q <> ""
  /\ q_domain q <> ""
  /\ Py.strip (q_question q) = q_question q
  /\ Py.strip (q_domain q) = q_domain q
  /\ Py.strip (q_comment q) = q_comment q.
Proof.
  intros (raw & text & cs & _ & _ & _ & _ & _ & _ & _ & Hq)%normalize_question_inv.
  rewrite Hq. cbn [q_id q_domain q_question q_comment].
  split_and!.
  - destruct (PyVal.truthy (question_id_of raw)) eqn:E;
      [by apply str_truthy_nonempty | apply derived_id_nonempty].
  - apply domain_of_fixed.
  - apply strip_idem.
  - apply domain_of_fixed.
  - apply comment_of_fixed.
Qed.

Lemma normalized_fields_example :
  let raw := JDict [("id", JInt 7); ("text", JStr "  Which port?  ");
                    ("options", JList [JInt 80; JInt 443]);
                    ("answers", JList [JStr "443"]);
                    ("domain", JStr "   "); ("explanation", JStr " TLS ")] in
  let q := {| q_id := "7"; q_question := "Which port?"; q_choices := ["80"; "443"];
              q_correct_answers := [1]; q_domain := "General"; q_comment := "TLS" |} in
  normalize_question raw = Ok q
  /\ q_id q <> "" /\ q_domain q <> ""
  /\ Py.strip (q_question q) = q_question q.
Proof.
  intros raw q.
  assert (H : normalize_question raw = Ok q) by (by vm_compute).
  split; [exact H|].
  destruct (normalized_fields_clean raw q H) as (H1 & H2 & H3 & _). done.
Defined.

Lemma normalize_correct_answers_Raise (raw_answers : json) (choices : list string)
    (e : exn) :
  normalize_correct_answers raw_answers choices = Raise e <->
  e = TypeError /\ exists f, raw_answers = JFloat f.
Proof.
  unfold normalize_correct_answers.
  destruct raw_answers as [|b|n|f|s|xs|kvs]; cbn [answers_of mbind result_bind];
    split; try (intros [_ [f' Hf]]; discriminate Hf); try discriminate.
  - intros [= <-]. eauto.
  - by intros [-> _].
Qed.

(** The exceptions of [normalize_question] that the import loop does not
    catch.  They are raised exactly for a record that is not an object, and
    for an object that passes the text and choices checks and then either
    gives a float as its answers or, with at least one answer resolved,
    has a text that is not a string. *)
Theorem escaping_exceptions (raw_question : json) :
  (exists e, normalize_question raw_question = Raise e
             /\ forall msg, e <> ValueError msg)
  <->
  (forall raw, raw_question <> JDict raw)
  \/ exists raw raw_choices,
       raw_question = JDict raw
       /\ PyVal.truthy (question_text_of raw) = true
       /\ raw_choices_of raw = JList raw_choices
       /\ (2 <= length raw_choices)%nat
       /\ ((exists f, raw_correct_of raw = JFloat f)
           \/ ((forall text, question_text_of raw <> JStr text)
               /\ exists correct_answers,
                    normalize_correct_answers (raw_correct_of raw)
                      (PyVal.str <$> raw_choices) = Ok correct_answers
                    /\ correct_answers <> [])).
Proof.
  split.
  - intros (e & He & Hne).
    destruct raw_question as [| | | | | |raw]; try (by left).
    right. unfold normalize_question in He.
    destruct (PyVal.truthy (question_text_of raw)) eqn:Htext; cbn [negb] in He;
      [|injection He as <-; by destruct (Hne _ eq_refl)].
    destruct (raw_choices_of raw) as [| | | | |cs|] eqn:Hcs;
      try (injection He as <-; by destruct (Hne _ eq_refl)).
    destruct (Z.ltb_spec (Z.of_nat (length cs)) 2) as [|Hlen];
      [injection He as <-; by destruct (Hne _ eq_refl)|].
    exists raw, cs. split_and!; [done | done | done | lia |].
    destruct (normalize_correct_answers _ _) as [ca|e'] eqn:Hca;
      cbn [mbind result_bind] in He.
    + right. destruct ca as [|i ca]; [injection He as <-; by destruct (Hne _ eq_refl)|].
      split; [|by exists (i :: ca)].
      intros text Ht. rewrite Ht in He.
      destruct (PyVal.truthy (question_id_of raw)); cbn in He; simplify_eq.
    + left. apply normalize_correct_answers_Raise in Hca as [_ Hf]. done.
  - intros [Hnd|(raw & cs & -> & Htext & Hcs & Hlen & Hcase)].
    + destruct raw_question as [| | | | | |raw];
        try (exists AttributeError; by split).
      by destruct (Hnd raw).
    + unfold normalize_question. rewrite Htext, Hcs. cbn [negb].
      destruct (Z.ltb_spec (Z.of_nat (length cs)) 2); [lia|].
      destruct Hcase as [[f Hf]|(Hnostr & ca & Hca & Hne)].
      * exists TypeError. split; [|done].
        assert (Hr : normalize_correct_answers (raw_correct_of raw) (PyVal.str <$> cs)
                     = Raise TypeError)
          by (apply normalize_correct_answers_Raise; eauto).
        by rewrite Hr.
      * rewrite Hca. cbn [mbind result_bind]. destruct ca as [|i ca]; [done|].
        destruct (PyVal.truthy (question_id_of raw)); cbn [negb mbind result_bind].
        -- exists AttributeError. split; [|done].
           destruct (question_text_of raw); try done. by destruct (Hnostr s).
        -- exists TypeError. split; [|done].
           destruct (question_text_of raw); try done. by destruct (Hnostr s).
Qed.

(** ** Choices given as a mapping *)

Lemma sorted_str_Permutation (l : list string) : Py.sorted_str l ≡ₚ l.
Proof. apply merge_sort_Permutation. Qed.

Lemma sorted_str_StronglySorted (l : list string) :
  StronglySorted String.le (Py.sorted_str l).
Proof. apply StronglySorted_merge_sort; apply _. Qed.

Lemma sorted_str_unique (l1 l2 : list string) :
  l1 ≡ₚ l2 -> Py.sorted_str l1 = Py.sorted_str l2.
Proof.
  intros Hp. apply (StronglySorted_unique String.le);
    try apply sorted_str_StronglySorted.
  by rewrite !sorted_str_Permutation.
Qed.

Lemma pyval_find_elem (d : list (string * json)) (k : string) (v : json) :
  NoDup d.*1 -> (k, v) ∈ d -> PyVal.find d k = Some v.
Proof.
  induction d as [|[k0 v0] d IH]; simpl; [by intros _ ?%elem_of_nil|].
  rewrite NoDup_cons, elem_of_cons. intros [Hk0 Hd] [[= -> ->]|Hin].
  - by rewrite String.eqb_refl.
  - destruct (String.eqb_spec k0 k) as [->|]; [|auto].
    destruct Hk0. apply list_elem_of_fmap. by exists (k, v).
Qed.

Lemma pyval_find_None (d : list (string * json)) (k : string) :
  PyVal.find d k = None <-> k ∉ d.*1.
Proof.
  induction d as [|[k0 v0] d IH]; simpl.
  - split; [intros _; apply not_elem_of_nil | done].
  - rewrite not_elem_of_cons. destruct (String.eqb_spec k0 k) as [->|Hne].
    + split; [done | intros [? _]; done].
    + rewrite IH. split; [by split | by intros [_ ?]].
Qed.

(** Two dicts with the same entries, in whatever order, answer every lookup
    alike. *)
Lemma pyval_get_Permutation (d d' : list (string * json)) (k : string) :
  NoDup d.*1 -> d ≡ₚ d' -> PyVal.get d k = PyVal.get d' k.
Proof.
  intros Hnd Hp. unfold PyVal.get, PyVal.get_default.
  assert (Hnd' : NoDup d'.*1) by (by rewrite <- Hp).
  destruct (PyVal.find d k) as [v|] eqn:E.
  - assert (Hin : (k, v) ∈ d).
    { clear -E. induction d as [|[k0 v0] d IH]; simpl in E; [done|].
      destruct (String.eqb_spec k0 k) as [->|].
      - injection E as ->. by left.
      - right. by apply IH. }
    rewrite Hp in Hin. by rewrite (pyval_find_elem d' k v Hnd' Hin).
  - apply pyval_find_None in E. rewrite Hp in E.
    apply pyval_find_None in E. by rewrite E.
Qed.

(** Choices given as a mapping are taken in the ascending order of their
    keys ("to keep deterministic order", as the source says): the order in
    which the mapping lists its entries makes no difference. *)
Theorem choices_mapping_order_irrelevant (raw raw' d d' : list (string * json)) :
  PyVal.or (PyVal.get raw "choices") (PyVal.get raw "options") = JDict d ->
  PyVal.or (PyVal.get raw' "choices") (PyVal.get raw' "options") = JDict d' ->
  NoDup d.*1 -> d ≡ₚ d' ->
  raw_choices_of raw = raw_choices_of raw'
  /\ exists keys,
       raw_choices_of raw = JList ((fun key => PyVal.get d key) <$> keys)
       /\ keys ≡ₚ d.*1
       /\ StronglySorted String.le keys.
Proof.
  intros Hd Hd' Hnd Hp. unfold raw_choices_of. rewrite Hd, Hd'. split.
  - f_equal. unfold PyVal.keys. rewrite (sorted_str_unique d.*1 d'.*1) by (by rewrite Hp).
    apply list_fmap_ext. intros _ k _. by apply pyval_get_Permutation.
  - exists (Py.sorted_str (PyVal.keys d)). split_and!.
    + done.
    + apply sorted_str_Permutation.
    + apply sorted_str_StronglySorted.
Qed.

Lemma choices_mapping_example :
  let d := [("b", JStr "second"); ("c", JStr "third"); ("a", JStr "first")] in
  let d' := [("a", JStr "first"); ("b", JStr "second"); ("c", JStr "third")] in
  raw_choices_of [("choices", JDict d)] = raw_choices_of [("options", JDict d')]
  /\ raw_choices_of [("choices", JDict d)]
     = JList [JStr "first"; JStr "second"; JStr "third"].
Proof.
  intros d d'.
  assert (Hnd : NoDup d.*1) by (by apply (bool_decide_unpack _)).
  assert (Hp : d ≡ₚ d').
  { subst d d'. etrans; [apply Permutation_skip, Permutation_swap|].
    apply Permutation_swap. }
  destruct (choices_mapping_order_irrelevant
              [("choices", JDict d)] [("options", JDict d')] d d' eq_refl eq_refl Hnd Hp)
    as [Heq _].
  split; [exact Heq | by vm_compute].
Defined.

(** ** The importer: when it returns, and what it keeps *)

(** An import returns normally exactly when the payload has a recognised
    shape and no record raises an exception other than [ValueError]; it then
    leaves in the store the upsert of the accepted records. *)
Theorem import_returns_iff (store : list Question) (raw_data : json) :
  (exists stats, (import_questions store raw_data).1 = Ok stats)
  <->
  (exists items, import_items raw_data = Ok items /\ Forall validates items).
Proof.
  split.
  - intros [stats Hstats].
    destruct (import_questions store raw_data) as [res store'] eqn:E.
    simpl in Hstats. subst res.
    apply import_questions_inv in E as (items & Hitems & Hval & _). eauto.
  - intros (items & Hitems & Hval).
    destruct (import_questions_Ok store raw_data items Hitems Hval)
      as (stats & -> & _). by exists stats.
Qed.

Lemma length_foldl_step (acc : list Question) :
  forall d : Dict.t Question,
  exists new,
    (foldl (Dict.step q_id) d acc).*1 = d.*1 ++ new
    /\ length new = count_fresh d.*1 acc.
Proof.
  induction acc as [|q acc IH]; intros d; simpl.
  - exists []. by rewrite app_nil_r.
  - destruct (IH (Dict.step q_id d q)) as (new & Hkeys & Hlen).
    assert (Hk : (Dict.step q_id d q).*1
                 = if Dict.mem d (q_id q) then d.*1 else d.*1 ++ [q_id q])
      by apply keys_set.
    rewrite Hk in Hkeys, Hlen. clear Hk.
    destruct (Dict.mem d (q_id q)) eqn:Hmem.
    + apply mem_keys in Hmem. rewrite bool_decide_eq_true_2 by done.
      by exists new.
    + assert (Hnot : q_id q ∉ d.*1) by (intros Hin%mem_keys; congruence).
      rewrite bool_decide_eq_false_2 by done.
      exists (q_id q :: new). split.
      * by rewrite Hkeys, <- app_assoc.
      * simpl. rewrite Hlen. f_equal. apply count_fresh_ext.
        intros k. rewrite elem_of_app, !elem_of_cons.
        split; [intros [?|[?|?%elem_of_nil]] | intros [?|?]]; tauto.
Qed.

Lemma keys_of_list_ids (store : list Question) :
  NoDup (q_id <$> store) -> (Dict.of_list q_id store).*1 = q_id <$> store.
Proof.
  intros Hnd. rewrite <- keys_values_of_list. by rewrite values_of_list_id.
Qed.

Lemma filter_id_unique (store : list Question) (q : Question) :
  NoDup (q_id <$> store) -> q ∈ store ->
  List.filter (fun x => String.eqb (q_id x) (q_id q)) store = [q].
Proof.
  induction store as [|x store IH]; [by intros _ ?%elem_of_nil|].
  rewrite fmap_cons, NoDup_cons, elem_of_cons. intros [Hx Hnd] Hq. simpl.
  destruct (String.eqb_spec (q_id x) (q_id q)) as [Heq|Hne].
  - assert (q = x) as ->.
    { destruct Hq as [->|Hq]; [done|]. destruct Hx. rewrite Heq.
      by apply list_elem_of_fmap_2. }
    f_equal. clear IH Hq Heq. induction store as [|y store IH]; [done|].
    rewrite fmap_cons, not_elem_of_cons in Hx. destruct Hx as [Hxy Hx].
    apply NoDup_cons in Hnd as [_ Hnd]. simpl.
    destruct (String.eqb_spec (q_id y) (q_id x)); [congruence | by apply IH].
  - destruct Hq as [->|Hq]; [done | by apply IH].
Qed.

Lemma filter_id_none (l : list Question) (k : string) :
  (forall a, a ∈ l -> q_id a <> k) ->
  List.filter (fun x => String.eqb (q_id x) k) l = [].
Proof.
  induction l as [|x l IH]; intros H; simpl; [done|].
  destruct (String.eqb_spec (q_id x) k) as [Heq|_].
  - destruct (H x); [by left | done].
  - apply IH. intros a Ha. apply H. by right.
Qed.

(** Existing questions keep their place in the store; the questions with a
    new id are appended after them, as many as [imported] counts; a stored
    question whose id no accepted record carries is left exactly as it
    was.  Nothing is ever deleted. *)
Theorem import_keeps_places (store : list Question) (raw_data : json)
    (items : list json) :
  import_items raw_data = Ok items ->
  Forall validates items ->
  NoDup (q_id <$> store) ->
  exists stats store',
    import_questions store raw_data = (Ok stats, store')
    /\ q_id <$> take (length store) store' = q_id <$> store
    /\ length store' = (length store + imported stats)%nat
    /\ (forall i q, store !! i = Some q ->
          (forall a, a ∈ accepted items -> q_id a <> q_id q) ->
          store' !! i = Some q).
Proof.
  intros Hitems Hval Hnd.
  destruct (import_questions_Ok store raw_data items Hitems Hval)
    as (stats & Himport & Hi & _).
  exists stats, (Dict.values (Dict.of_list q_id (store ++ accepted items))).
  split; [exact Himport|].
  rewrite keys_of_list_ids in Hi by done.
  destruct (length_foldl_step (accepted items) (Dict.of_list q_id store))
    as (new & Hkeys & Hlen).
  rewrite foldl_step_of_list, (keys_of_list_ids store) in Hkeys by done.
  rewrite (keys_of_list_ids store), <- Hi in Hlen by done.
  rewrite <- keys_values_of_list in Hkeys.
  assert (Hlen' : length (Dict.values (Dict.of_list q_id (store ++ accepted items)))
                  = (length store + imported stats)%nat).
  { rewrite <- (length_fmap q_id), Hkeys, length_app, length_fmap. lia. }
  split_and!.
  - rewrite fmap_take, Hkeys.
    rewrite <- (length_fmap q_id store), take_app_length. done.
  - done.
  - intros i q Hq Hfree.
    assert (Hi' : (i < length store)%nat) by (by eapply lookup_lt_Some).
    destruct (lookup_lt_is_Some_2
                (Dict.values (Dict.of_list q_id (store ++ accepted items))) i)
      as [q' Hq']; [lia|].
    rewrite Hq'. f_equal.
    assert (Hid : q_id q' = q_id q).
    { assert (H1 : (q_id <$> Dict.values (Dict.of_list q_id (store ++ accepted items)))
                   !! i = Some (q_id q')) by (by rewrite list_lookup_fmap, Hq').
      rewrite Hkeys, lookup_app_l, list_lookup_fmap, Hq in H1
        by (by rewrite length_fmap).
      by injection H1. }
    assert (Hfind : Dict.find (Dict.of_list q_id (store ++ accepted items)) (q_id q)
                    = Some q).
    { rewrite find_of_list, List.filter_app, (filter_id_none (accepted items)) by done.
      rewrite app_nil_r, filter_id_unique; [done | done |].
      by eapply list_elem_of_lookup_2. }
    assert (Hfind' : Dict.find (Dict.of_list q_id (store ++ accepted items)) (q_id q')
                     = Some q').
    { apply list_elem_of_lookup_2, list_elem_of_fmap in Hq' as ([k x] & -> & Hin).
      pose proof (of_list_keyed q_id (store ++ accepted items)) as Hk.
      eapply Forall_forall in Hk; [|exact Hin]. simpl in *. rewrite Hk.
      apply NoDup_find_elem; [apply of_list_NoDup | done]. }
    rewrite Hid in Hfind'. congruence.
Qed.

Lemma import_keeps_places_example :
  let qa := mkQuestion "a" "Q1" ["x"; "y"] [0] "General" "" in
  let qb := mkQuestion "b" "Q2" ["x"; "y"] [1] "General" "" in
  let payload := JList [JDict [("id", JStr "b"); ("question", JStr "Q2 bis");
                               ("choices", JList [JStr "x"; JStr "y"; JStr "z"]);
                               ("answer", JStr "C")];
                        JDict [("id", JStr "c"); ("question", JStr "Q3");
                               ("choices", JList [JStr "x"; JStr "y"]);
                               ("answer", JStr "A")]] in
  exists stats store',
    import_questions [qa; qb] payload = (Ok stats, store')
    /\ length store' = (2 + imported stats)%nat
    /\ store' !! O = Some qa.
Proof.
  intros qa qb payload.
  destruct (import_items payload) as [items|] eqn:Hitems; [|by vm_compute in Hitems].
  assert (Hacc : accepted items
                 = [mkQuestion "b" "Q2 bis" ["x"; "y"; "z"] [2] "General" "";
                    mkQuestion "c" "Q3" ["x"; "y"] [0] "General" ""])
    by (vm_compute in Hitems; injection Hitems as <-; by vm_compute).
  destruct (import_keeps_places [qa; qb] payload items Hitems)
    as (stats & store' & Himport & _ & Hlen & Hsame).
  - vm_compute in Hitems. injection Hitems as <-. repeat constructor; by vm_compute.
  - by apply (bool_decide_unpack _).
  - exists stats, store'. split_and!; [done | done |].
    apply Hsame; [done|]. rewrite Hacc. intros a Ha.
    apply elem_of_cons in Ha as [->|Ha]; [done|].
    apply list_elem_of_singleton in Ha as ->. done.
Defined.

(** Two dicts with the same keys in the same order and the same lookups
    are the same dict. *)
Lemma dict_ext {V : Type} (d1 d2 : Dict.t V) :
  d1.*1 = d2.*1 -> NoDup d1.*1 ->
  (forall k, Dict.find d1 k = Dict.find d2 k) -> d1 = d2.
Proof.
  revert d2. induction d1 as [|[k v] d1 IH]; intros [|[k' v'] d2] Hkeys Hnd Hfind;
    try done.
  rewrite !fmap_cons in Hkeys. simpl in Hkeys. injection Hkeys as <- Hkeys.
  rewrite fmap_cons in Hnd. apply NoDup_cons in Hnd as [Hk Hnd].
  pose proof (Hfind k) as Hv. simpl in Hv. rewrite String.eqb_refl in Hv.
  injection Hv as <-. f_equal. apply IH; [done | done |].
  intros k'. destruct (String.eqb_spec k k') as [<-|Hne].
  - assert (H1 : Dict.find d1 k = None) by (by apply find_None_keys).
    assert (H2 : Dict.find d2 k = None) by (apply find_None_keys; by rewrite <- Hkeys).
    by rewrite H1, H2.
  - specialize (Hfind k'). simpl in Hfind.
    destruct (String.eqb_spec k k'); [done | exact Hfind].
Qed.

(** Upserting again the records a dict was built from changes nothing. *)
Lemma foldl_step_again (l acc : list Question) :
  foldl (Dict.step q_id) (Dict.of_list q_id (l ++ acc)) acc
  = Dict.of_list q_id (l ++ acc).
Proof.
  set (D := Dict.of_list q_id (l ++ acc)).
  destruct (length_foldl_step acc D) as (new & Hkeys & Hlen).
  rewrite count_fresh_known in Hlen.
  2:{ intros q Hq. apply mem_keys, mem_of_list. exists q. split; [|done].
      apply elem_of_app. by right. }
  destruct new; [|done]. rewrite app_nil_r in Hkeys.
  apply dict_ext; [done | by rewrite Hkeys; apply of_list_NoDup |].
  intros k. rewrite find_foldl. unfold D. rewrite find_of_list.
  rewrite List.filter_app, last_app.
  by destruct (last (List.filter _ acc)).
Qed.

(** Importing the same payload a second time leaves the store exactly as
    the first import left it. *)
Theorem reimport_same_store (store : list Question) (raw_data : json)
    (items : list json) :
  import_items raw_data = Ok items ->
  Forall validates items ->
  exists stats1 stats2 store1,
    import_questions store raw_data = (Ok stats1, store1)
    /\ import_questions store1 raw_data = (Ok stats2, store1).
Proof.
  intros Hitems Hval.
  destruct (import_questions_Ok store raw_data items Hitems Hval)
    as (stats1 & H1 & _).
  set (store1 := Dict.values (Dict.of_list q_id (store ++ accepted items))) in *.
  destruct (import_questions_Ok store1 raw_data items Hitems Hval)
    as (stats2 & H2 & _).
  exists stats1, stats2, store1. split; [done|]. rewrite H2. f_equal.
  rewrite <- foldl_step_of_list. unfold store1.
  rewrite of_list_values by (apply of_list_NoDup || apply of_list_keyed).
  by rewrite foldl_step_again.
Qed.

Lemma reimport_same_store_example :
  let payload := JDict [("data",
                   JList [JDict [("id", JStr "a"); ("question", JStr "Q1");
                                 ("choices", JList [JStr "x"; JStr "y"]);
                                 ("answer", JStr "B")];
                          JDict [("question", JStr "no choices")];
                          JDict [("id", JStr "a"); ("question", JStr "Q1 again");
                                 ("choices", JList [JStr "x"; JStr "y"]);
                                 ("answer", JStr "A")]])] in
  exists stats1 stats2 store1,
    import_questions [] payload = (Ok stats1, store1)
    /\ import_questions store1 payload = (Ok stats2, store1).
Proof.
  intros payload.
  destruct (import_items payload) as [items|] eqn:Hitems; [|by vm_compute in Hitems].
  apply (reimport_same_store [] payload items Hitems).
  vm_compute in Hitems. injection Hitems as <-.
  repeat constructor; by vm_compute.
Defined.

(** A batch in which every record is refused (and so the empty batch)
    changes nothing: the counts are 0 and 0 and a store without repeated ids
    is written back as it was. *)
Theorem refused_batch_changes_nothing (store : list Question) (raw_data : json)
    (items : list json) :
  import_items raw_data = Ok items ->
  (forall item, item ∈ items ->
     exists msg, normalize_question item = Raise (ValueError msg)) ->
  NoDup (q_id <$> store) ->
  import_questions store raw_data = (Ok {| imported := 0; updated := 0 |}, store).
Proof.
  intros Hitems Hrefused Hnd.
  assert (Hacc : accepted items = [] /\ Forall validates items).
  { clear Hitems. induction items as [|item items IH]; [by split|].
    destruct (Hrefused item) as [msg Hmsg]; [by left|].
    destruct IH as [IH1 IH2]; [intros i Hi; apply Hrefused; by right|].
    split.
    - by rewrite accepted_cons, Hmsg.
    - constructor; [|done]. unfold validates. by rewrite Hmsg. }
  destruct Hacc as [Hacc Hval].
  destruct (import_questions_Ok store raw_data items Hitems Hval)
    as ([i u] & -> & Hi & Hsum).
  rewrite Hacc in *. simpl in Hi, Hsum. rewrite app_nil_r.
  rewrite values_of_list_id by done.
  do 2 f_equal. f_equal; lia.
Qed.

Lemma refused_batch_example :
  let qa := mkQuestion "a" "Q1" ["x"; "y"] [0] "General" "" in
  import_questions [qa]
    (JList [JDict [("question", JStr "no choices")];
            JDict [("question", JStr "Q"); ("choices", JList [JStr "x"; JStr "y"]);
                   ("answer", JStr "z")]])
  = (Ok {| imported := 0; updated := 0 |}, [qa]).
Proof.
  intros qa.
  apply (refused_batch_changes_nothing [qa]
           (JList [JDict [("question", JStr "no choices")];
                   JDict [("question", JStr "Q");
                          ("choices", JList [JStr "x"; JStr "y"]);
                          ("answer", JStr "z")]])
           [JDict [("question", JStr "no choices")];
            JDict [("question", JStr "Q"); ("choices", JList [JStr "x"; JStr "y"]);
                   ("answer", JStr "z")]] eq_refl).
  - intros item Hitem. apply elem_of_cons in Hitem as [->|Hitem].
    + exists "Choices must be a list with at least two options". by vm_compute.
    + apply list_elem_of_singleton in Hitem as ->.
      exists "At least one correct answer is required". by vm_compute.
  - by apply (bool_decide_unpack _).
Defined.

(** ** The wrong-answer store: lookups, shape and invariants *)

Lemma record_of_write (store : list WrongAnswer) (qid k : string) (item : WrongAnswer) :
  question_id item = qid ->
  record_of (Dict.values (Dict.set (Dict.of_list question_id store) qid item)) k
  = if String.eqb qid k then Some item else record_of store k.
Proof.
  intros Hitem. unfold record_of at 1. rewrite of_list_values.
  - by rewrite find_set.
  - apply NoDup_keys_set, of_list_NoDup.
  - apply keyed_set; [apply of_list_keyed | done].
Qed.

Lemma record_of_after_wrong (now : string) (store : list WrongAnswer) (qid : string)
    (selected : list Z) :
  record_of (update_wrong_answers now store qid selected false) qid
  = Some {| question_id := qid;
            wrong_count := match record_of store qid with
                           | Some r => wrong_count r + 1
                           | None => 1
                           end;
            last_attempt := now; last_answer := selected |}.
Proof.
  unfold update_wrong_answers. fold (record_of store qid).
  destruct (record_of store qid) as [r|] eqn:Hr.
  - apply record_of_Some_id in Hr as [Hid _].
    rewrite record_of_write by done. by rewrite String.eqb_refl, Hid.
  - rewrite record_of_write by done. by rewrite String.eqb_refl.
Qed.

Lemma record_of_after_right (now : string) (store : list WrongAnswer) (qid : string)
    (selected : list Z) :
  record_of (update_wrong_answers now store qid selected true) qid = None.
Proof.
  unfold update_wrong_answers, Dict.mem.
  destruct (Dict.find _ qid) eqn:E; [|exact E].
  unfold record_of. by rewrite find_of_list, filter_filter_same.
Qed.

Lemma record_of_other (now : string) (store : list WrongAnswer) (qid other : string)
    (selected : list Z) (ok : bool) :
  other <> qid ->
  record_of (update_wrong_answers now store qid selected ok) other
  = record_of store other.
Proof.
  intros Hne. destruct ok; unfold update_wrong_answers.
  - unfold Dict.mem. destruct (Dict.find _ qid); [|done].
    unfold record_of. by rewrite !find_of_list, filter_filter_other.
  - fold (record_of store qid).
    destruct (record_of store qid) as [r|] eqn:Hr.
    + apply record_of_Some_id in Hr as [Hid _]. rewrite record_of_write by done.
      destruct (String.eqb_spec qid other); congruence.
    + rewrite record_of_write by done.
      destruct (String.eqb_spec qid other); congruence.
Qed.

Lemma NoDup_filter_fmap {A B : Type} (f : A -> B) (p : A -> bool) (l : list A) :
  NoDup (f <$> l) -> NoDup (f <$> List.filter p l).
Proof.
  induction l as [|x l IH]; [done|].
  rewrite fmap_cons, NoDup_cons. intros [Hx Hnd]. cbn [List.filter].
  destruct (p x); [|by apply IH].
  rewrite fmap_cons. apply NoDup_cons. split; [|by apply IH].
  intros (y & Hy & Hin)%list_elem_of_fmap. apply Hx.
  apply list_elem_of_fmap. exists y. split; [done|].
  apply list_elem_of_In. apply list_elem_of_In, filter_In in Hin. tauto.
Qed.

(** What every update keeps: no two records for one question (an incorrect
    answer even repairs a store that had some), and a [wrong_count] of at
    least 1 in every record. *)
Theorem wrong_store_invariants (now : string) (store : list WrongAnswer)
    (qid : string) (selected : list Z) (ok : bool) :
  (NoDup (question_id <$> store) ->
   NoDup (question_id <$> update_wrong_answers now store qid selected ok))
  /\ NoDup (question_id <$> update_wrong_answers now store qid selected false)
  /\ (Forall (fun r => 1 <= wrong_count r) store ->
      Forall (fun r => 1 <= wrong_count r)
        (update_wrong_answers now store qid selected ok)).
Proof.
  assert (Hwrong : NoDup (question_id <$> update_wrong_answers now store qid selected false)).
  { unfold update_wrong_answers.
    destruct (Dict.find _ qid) as [item|] eqn:Hfind.
    - replace (question_id <$> Dict.values _)
        with (Dict.set (Dict.of_list question_id store) qid
                {| question_id := question_id item; wrong_count := wrong_count item + 1;
                   last_attempt := now; last_answer := selected |}).*1.
      + apply NoDup_keys_set, of_list_NoDup.
      + unfold Dict.values. rewrite <- list_fmap_compose. apply Forall_fmap_ext_1.
        eapply Forall_impl.
        * apply (keyed_set question_id); [apply of_list_keyed|].
          simpl. eapply find_keyed; [apply of_list_keyed | exact Hfind].
        * by intros [].
    - replace (question_id <$> Dict.values _)
        with (Dict.set (Dict.of_list question_id store) qid
                {| question_id := qid; wrong_count := 1;
                   last_attempt := now; last_answer := selected |}).*1.
      + apply NoDup_keys_set, of_list_NoDup.
      + unfold Dict.values. rewrite <- list_fmap_compose. apply Forall_fmap_ext_1.
        eapply Forall_impl.
        * apply (keyed_set question_id); [apply of_list_keyed | done].
        * by intros []. }
  split_and!; [|done|].
  - intros Hnd. destruct ok; [|done]. unfold update_wrong_answers.
    destruct (Dict.mem _ _); [by apply NoDup_filter_fmap | done].
  - intros Hall. destruct ok; unfold update_wrong_answers.
    + destruct (Dict.mem _ _); [|done].
      apply Forall_forall. intros r Hr%list_elem_of_In%filter_In.
      destruct Hr as [Hr _]. apply list_elem_of_In in Hr.
      by eapply Forall_forall in Hall.
    + apply Forall_forall. intros r Hr.
      destruct (Dict.find _ qid) as [item|] eqn:Hfind.
      * apply elem_of_values_set in Hr as [->|Hr]; simpl.
        -- apply find_Some_values, elem_of_values_of_list in Hfind.
           eapply Forall_forall in Hall; [|exact Hfind]. simpl in Hall. lia.
        -- apply elem_of_values_of_list in Hr. by eapply Forall_forall in Hall.
      * apply elem_of_values_set in Hr as [->|Hr]; simpl; [lia|].
        apply elem_of_values_of_list in Hr. by eapply Forall_forall in Hall.
Qed.

(** A run of answers to one question that had no record: after [n >= 1]
    incorrect answers in a row the record counts [n] and holds the time and
    the selection of the last of them; one correct answer then removes it. *)
Theorem wrong_answers_accumulate (store : list WrongAnswer) (qid : string)
    (attempts : list (string * list Z)) (now : string) (selected : list Z)
    (now' : string) (selected' : list Z) :
  record_of store qid = None ->
  let after :=
    foldl (fun st attempt => update_wrong_answers attempt.1 st qid attempt.2 false)
      store (attempts ++ [(now, selected)]) in
  record_of after qid
  = Some {| question_id := qid; wrong_count := Z.of_nat (S (length attempts));
            last_attempt := now; last_answer := selected |}
  /\ record_of (update_wrong_answers now' after qid selected' true) qid = None.
Proof.
  intros Hnone. cbv zeta. split; [|apply record_of_after_right].
  revert now selected.
  induction attempts as [|[t sel] attempts IH] using rev_ind; intros now selected.
  - cbn [app foldl fst snd]. by rewrite record_of_after_wrong, Hnone.
  - rewrite foldl_app. cbn [foldl fst snd].
    rewrite record_of_after_wrong, IH. cbn [wrong_count].
    rewrite length_app. cbn [length]. do 2 f_equal. lia.
Qed.

Lemma wrong_answers_accumulate_example :
  let store := [mkWrong "other" 4 "t0" [1]] in
  record_of store "q" = None
  /\ record_of
       (foldl (fun st attempt => update_wrong_answers attempt.1 st "q" attempt.2 false)
          store ([("t1", [0]); ("t2", [1; 2])] ++ [("t3", [2])])) "q"
     = Some (mkWrong "q" 3 "t3" [2]).
Proof.
  intros store. split; [done|].
  exact (proj1 (wrong_answers_accumulate store "q" [("t1", [0]); ("t2", [1; 2])]
                  "t3" [2] "t4" [] eq_refl)).
Defined.

Lemma values_set_keyed {V : Type} (key_of : V -> string) (d : Dict.t V) (k : string) (v : V) :
  Dict.keyed key_of d -> NoDup d.*1 -> k ∈ d.*1 ->
  Dict.values (Dict.set d k v)
  = (fun x => if String.eqb (key_of x) k then v else x) <$> Dict.values d.
Proof.
  unfold Dict.values.
  induction d as [|[k0 v0] d IH]; intros Hk Hnd Hin; [by apply elem_of_nil in Hin|].
  inversion Hk as [|? ? Hk0 Hk']; subst. simpl in Hk0.
  rewrite fmap_cons in Hnd. apply NoDup_cons in Hnd as [Hk0' Hnd].
  cbn [Dict.set]. destruct (String.eqb_spec k0 k) as [->|Hne].
  - rewrite !fmap_cons. cbn [snd]. rewrite Hk0, String.eqb_refl. f_equal.
    rewrite <- (list_fmap_id (d.*2)) at 1. apply Forall_fmap_ext_1.
    apply Forall_forall. intros x Hx. simpl.
    destruct (String.eqb_spec (key_of x) k) as [Hkx|]; [|done].
    destruct Hk0'. apply list_elem_of_fmap in Hx as ([k1 x1] & -> & Hx1).
    eapply Forall_forall in Hk'; [|exact Hx1]. simpl in *.
    apply list_elem_of_fmap. exists (k1, x1). split; [simpl; congruence | done].
  - rewrite !fmap_cons. cbn [snd]. rewrite Hk0.
    destruct (String.eqb_spec k0 k); [done|]. f_equal. apply IH; [done..|].
    rewrite fmap_cons in Hin. apply elem_of_cons in Hin as [Heq|?]; [|done].
    simpl in Heq. congruence.
Qed.

Lemma length_filter_remove (store : list WrongAnswer) (qid : string) :
  NoDup (question_id <$> store) -> qid ∈ question_id <$> store ->
  S (length (List.filter (fun item => negb (String.eqb (question_id item) qid)) store))
  = length store.
Proof.
  induction store as [|x store IH]; [by intros _ ?%elem_of_nil|].
  rewrite fmap_cons, NoDup_cons, elem_of_cons. intros [Hx Hnd] Hin. simpl.
  destruct (String.eqb_spec (question_id x) qid) as [Heq|Hne]; simpl.
  - f_equal. rewrite <- Heq in *. clear IH Hin.
    induction store as [|y store IH]; [done|].
    rewrite fmap_cons, not_elem_of_cons in Hx. destruct Hx as [Hxy Hx].
    apply NoDup_cons in Hnd as [_ Hnd]. simpl.
    destruct (String.eqb_spec (question_id y) (question_id x)); [congruence|].
    simpl. f_equal. by apply IH.
  - f_equal. apply IH; [done|]. destruct Hin as [?|?]; [congruence | done].
Qed.

(** The shape of the store after an update, for a store with one record
    per question.  An incorrect answer to a question without a record
    appends the new record at the end; to a question with a record it
    rewrites that record in place, the others keeping their position.  A
    correct answer removes one record when there is one and leaves the list
    untouched otherwise. *)
Theorem wrong_store_shape (now : string) (store : list WrongAnswer) (qid : string)
    (selected : list Z) :
  NoDup (question_id <$> store) ->
  (record_of store qid = None ->
   update_wrong_answers now store qid selected false
   = store ++ [{| question_id := qid; wrong_count := 1;
                  last_attempt := now; last_answer := selected |}]
   /\ update_wrong_answers now store qid selected true = store)
  /\ (forall r, record_of store qid = Some r ->
      update_wrong_answers now store qid selected false
      = (fun x => if String.eqb (question_id x) qid
                  then {| question_id := qid; wrong_count := wrong_count r + 1;
                          last_attempt := now; last_answer := selected |}
                  else x) <$> store
      /\ S (length (update_wrong_answers now store qid selected true)) = length store).
Proof.
  intros Hnd.
  assert (Hkeys : (Dict.of_list question_id store).*1 = question_id <$> store).
  { rewrite <- keys_values_of_list. by rewrite values_of_list_id. }
  split.
  - intros Hnone. split.
    + unfold update_wrong_answers. fold (record_of store qid). rewrite Hnone.
      rewrite set_fresh.
      * unfold Dict.values. rewrite fmap_app. fold (Dict.values (Dict.of_list question_id store)).
        by rewrite values_of_list_id.
      * by apply find_None_keys.
    + unfold update_wrong_answers, Dict.mem. fold (record_of store qid).
      by rewrite Hnone.
  - intros r Hr. pose proof (record_of_Some_id _ _ _ Hr) as [Hid Hin]. split.
    + unfold update_wrong_answers. fold (record_of store qid). rewrite Hr, Hid.
      rewrite (values_set_keyed question_id).
      * by rewrite values_of_list_id.
      * apply of_list_keyed.
      * apply of_list_NoDup.
      * rewrite Hkeys, <- Hid. by apply list_elem_of_fmap_2.
    + unfold update_wrong_answers, Dict.mem. fold (record_of store qid). rewrite Hr.
      apply length_filter_remove; [done|]. rewrite <- Hid.
      by apply list_elem_of_fmap_2.
Qed.

Lemma wrong_store_shape_example :
  let store := [mkWrong "a" 1 "t0" [1]; mkWrong "b" 2 "t1" [0]] in
  NoDup (question_id <$> store)
  /\ update_wrong_answers "t2" store "c" [3] false
     = store ++ [mkWrong "c" 1 "t2" [3]]
  /\ update_wrong_answers "t2" store "a" [3] false
     = [mkWrong "a" 2 "t2" [3]; mkWrong "b" 2 "t1" [0]].
Proof.
  intros store.
  assert (Hnd : NoDup (question_id <$> store)) by (by apply (bool_decide_unpack _)).
  split; [exact Hnd|]. split.
  - by apply (proj1 (wrong_store_shape "t2" store "c" [3] Hnd)).
  - by apply (proj2 (wrong_store_shape "t2" store "a" [3] Hnd) (mkWrong "a" 1 "t0" [1])).
Defined.

(** ** Creating a session *)

Lemma elem_of_filter_domain (selected_domain : option string)
    (all_questions : list Question) (q : Question) :
  q ∈ filter_domain selected_domain all_questions <->
  q ∈ all_questions
  /\ (forall d, selected_domain = Some d -> d <> "" -> q_domain q = d).
Proof.
  unfold filter_domain. rewrite list_elem_of_In, filter_In, <- list_elem_of_In.
  destruct selected_domain as [d|].
  - destruct (String.eqb_spec d "") as [->|Hd]; simpl.
    + split; [intros [? _]; split; [done|]; by intros ? [= <-] | by intros [? _]].
    + destruct (String.eqb_spec (q_domain q) d) as [Heq|Hne].
      * split; [intros [? _]; split; [done|]; by intros ? [= <-] | by intros [? _]].
      * split; [by intros [_ ?]|]. intros [_ H]. by destruct (Hne (H d eq_refl Hd)).
  - split; [intros [? _]; by split | by intros [? _]].
Qed.

Lemma filter_domain_sublist (selected_domain : option string)
    (all_questions : list Question) :
  sublist (filter_domain selected_domain all_questions) all_questions.
Proof.
  unfold filter_domain. induction all_questions as [|q l IH]; simpl; [done|].
  by destruct (match selected_domain with Some _ => _ | None => _ end);
    constructor.
Qed.

(** [new_test] never raises (the sample size always lies within the pool)
    and either leaves the session as it was (no question stored, a GET, or
    no question of the selected domain), or stores a non-empty test whose
    questions are drawn without repetition from the stored questions, all of
    the selected domain when one is selected. *)
Theorem new_test_never_raises (rng : nat -> nat) (now : string) (method : Method)
    (all_questions : list Question) (form : Form) (sess : Session) :
  exists response sess',
    new_test rng now method all_questions form sess = Ok (response, sess')
    /\ ((sess' = sess /\ response <> Redirect "take_test" None)
        \/ exists selected,
             response = Redirect "take_test" None
             /\ sess' = {| current_test := Some {| questions := selected;
                                                   timestamp := now;
                                                   mode := standard |};
                           last_results := last_results sess |}
             /\ selected <> []
             /\ selected ⊆+ all_questions
             /\ (forall q d, q ∈ selected -> form_get form "domain" = Some d ->
                   d <> "" -> q_domain q = d)).
Proof.
  unfold new_test. destruct all_questions as [|q0 qs] eqn:Hall.
  { eexists _, _. split; [reflexivity|]. by left. }
  rewrite <- Hall. destruct method.
  { eexists _, _. split; [reflexivity|]. by left. }
  destruct (filter_domain (form_get form "domain") all_questions) as [|p pool] eqn:Hpool.
  { eexists _, _. split; [reflexivity|]. by left. }
  rewrite <- Hpool.
  destruct (start_test_spec rng now standard
              (filter_domain (form_get form "domain") all_questions)
              (requested_count form) sess)
    as (selected & Hstart & _ & Hlen & Hsub); [by rewrite Hpool|].
  eexists _, _. split; [exact Hstart|]. right. exists selected.
  split_and!; [done | done | | |].
  - intros ->. simpl in Hlen.
    pose proof (effective_count_bounds (requested_count form)
                  (length (filter_domain (form_get form "domain") all_questions))) as Hb.
    rewrite Hpool in Hb, Hlen. simpl in Hb, Hlen. lia.
  - etrans; [exact Hsub|]. apply sublist_submseteq, filter_domain_sublist.
  - intros q d Hq Hd Hne.
    assert (Hin : q ∈ filter_domain (form_get form "domain") all_questions)
      by (eapply elem_of_submseteq; eauto).
    apply elem_of_filter_domain in Hin as [_ Hdom]. by apply Hdom.
Qed.

(** [review] never raises either; the test it stores is in review mode, is
    not empty, has the clamped size and holds only stored questions that
    have a wrong-answer record. *)
Theorem review_session_from_mistakes (rng : nat -> nat) (now : string)
    (method : Method) (all_questions : list Question)
    (wrong_answers : list WrongAnswer) (form : Form) (sess : Session) :
  exists response sess',
    review rng now method all_questions wrong_answers form sess = Ok (response, sess')
    /\ ((sess' = sess /\ response <> Redirect "take_test" None)
        \/ exists selected,
             response = Redirect "take_test" None
             /\ sess' = {| current_test := Some {| questions := selected;
                                                   timestamp := now;
                                                   mode := review_mode |};
                           last_results := last_results sess |}
             /\ selected <> []
             /\ Z.of_nat (length selected)
                = effective_count (requested_count form)
                    (length (review_questions all_questions wrong_answers))
             /\ (forall q, q ∈ selected ->
                   q ∈ all_questions
                   /\ exists r, r ∈ wrong_answers /\ question_id r = q_id q)).
Proof.
  unfold review. destruct method.
  { eexists _, _. split; [reflexivity|]. by left. }
  destruct (review_questions all_questions wrong_answers) as [|p pool] eqn:Hpool.
  { eexists _, _. split; [reflexivity|]. by left. }
  rewrite <- Hpool.
  destruct (start_test_spec rng now review_mode
              (review_questions all_questions wrong_answers)
              (requested_count form) sess)
    as (selected & Hstart & _ & Hlen & Hsub); [by rewrite Hpool|].
  eexists _, _. split; [exact Hstart|]. right. exists selected.
  split_and!; [done | done | | done |].
  - intros ->. simpl in Hlen.
    pose proof (effective_count_bounds (requested_count form)
                  (length (review_questions all_questions wrong_answers))) as Hb.
    rewrite Hpool in Hb, Hlen. simpl in Hb, Hlen. lia.
  - intros q Hq.
    assert (Hin : q ∈ review_questions all_questions wrong_answers)
      by (eapply elem_of_submseteq; eauto).
    unfold review_questions in Hin.
    apply list_elem_of_In, filter_In in Hin as [Hall Hmem].
    split; [by apply list_elem_of_In|]. by apply mem_of_list in Hmem.
Qed.

(** ** Submitting a test: the results and the wrong-answer store *)

(** The loop of [submit_test] on questions with distinct ids: the store it
    leaves holds, for the question of each turn, no record when the answer
    was correct and otherwise a record with the selection, the time read at
    that turn and a count raised by one; the records of the other ids are
    as before. *)
Lemma submit_loop_store (clock : nat -> string) (form : Form) (qs : list Question) :
  NoDup (q_id <$> qs) ->
  (forall q, q ∈ qs ->
     exists ns, ints_of (form_getlist form ("q_" +:+ q_id q)) = Ok ns) ->
  forall turn wrong_answers rows correct,
  exists rows' correct' wrong_answers',
    submit_loop clock form qs turn wrong_answers rows correct
    = (Ok (rows ++ rows', correct'), wrong_answers')
    /\ length rows' = length qs
    /\ (forall i q, qs !! i = Some q ->
          exists row,
            rows' !! i = Some row
            /\ row_question row = q
            /\ selected_of form q = Ok (row_selected row)
            /\ row_is_correct row = is_correct (row_selected row) q
            /\ record_of wrong_answers' (q_id q)
               = if row_is_correct row then None
                 else Some {| question_id := q_id q;
                              wrong_count := match record_of wrong_answers (q_id q) with
                                             | Some r => wrong_count r + 1
                                             | None => 1
                                             end;
                              last_attempt := clock (turn + i)%nat;
                              last_answer := row_selected row |})
    /\ (forall k, k ∉ q_id <$> qs ->
          record_of wrong_answers' k = record_of wrong_answers k).
Proof.
  induction qs as [|q qs IH]; intros Hnd Hints turn wrong_answers rows correct.
  - exists [], correct, wrong_answers. simpl. rewrite app_nil_r.
    split_and!; [done | done | by intros i q | done].
  - rewrite fmap_cons in Hnd. apply NoDup_cons in Hnd as [Hq Hnd].
    destruct (Hints q) as [ns Hns]; [by left|].
    cbn [submit_loop]. rewrite (selected_of_ints _ _ _ Hns).
    set (ok := is_correct (Py.sorted_set ns) q).
    set (wrong1 := update_wrong_answers (clock turn) wrong_answers (q_id q)
                     (Py.sorted_set ns) ok).
    edestruct (IH Hnd) as (rows' & correct' & wrong' & Hloop & Hlen & Hrows & Hother).
    { intros q' Hq'. apply Hints. by right. }
    eexists (_ :: rows'), correct', wrong'. split_and!.
    + rewrite Hloop. by rewrite <- app_assoc.
    + cbn [length]. by rewrite Hlen.
    + intros [|i] q'.
      * intros [= <-]. eexists. split; [reflexivity|].
        cbn [row_question row_selected row_is_correct].
        split_and!; [done | by apply selected_of_ints | done |].
        rewrite Hother by done. subst wrong1. fold ok. rewrite Nat.add_0_r.
        destruct ok; [apply record_of_after_right | apply record_of_after_wrong].
      * intros Hi. cbn [lookup list_lookup] in Hi.
        destruct (Hrows i q' Hi) as (row & Hrow & Hrq & Hsel & Hok & Hrec).
        exists row. split_and!; [done..|].
        rewrite Hrec. subst wrong1. rewrite record_of_other.
        -- by rewrite Nat.add_succ_r.
        -- intros Heq. apply Hq. rewrite <- Heq.
           apply list_elem_of_fmap_2. by eapply list_elem_of_lookup_2.
    + intros k Hk. rewrite fmap_cons, not_elem_of_cons in Hk. destruct Hk as [Hkq Hk].
      rewrite Hother by done. subst wrong1. by apply record_of_other.
Qed.



(** ** The counts shown on every page *)

(** The domains listed by [inject_counts] are the domains of the stored
    questions, each once, in ascending order; the two counts are the sizes
    of the two stores. *)
Theorem inject_counts_domains (all_questions : list Question)
    (wrong_answers : list WrongAnswer) :
  let counts := inject_counts all_questions wrong_answers in
  question_count counts = length all_questions
  /\ wrong_questions counts = length wrong_answers
  /\ StronglySorted String.le (domains counts)
  /\ NoDup (domains counts)
  /\ (forall d, d ∈ domains counts <->
        exists q, q ∈ all_questions /\ q_domain q = d).
Proof.
  cbv zeta. unfold inject_counts. cbn [question_count wrong_questions domains].
  split_and!; [done | done | | |].
  - apply sorted_str_StronglySorted.
  - rewrite sorted_str_Permutation. apply NoDup_remove_dups.
  - intros d. rewrite sorted_str_Permutation, elem_of_remove_dups, list_elem_of_fmap.
    split; intros (q & ? & ?); by exists q.
Qed.

(** ** The import page *)

(** [import_view] contains the importer's errors.  No [ValueError] leaves
    the view: a file that does not parse and a payload the importer refuses
    both come back as a redirect to the import page whose message is
    "Failed to import questions: " followed by the error's text.  The
    question store is different afterwards only when the response is the
    redirect to the index page, and that redirect is given exactly when the
    importer returned, with the importer's store. *)
Theorem import_view_contains_errors (method : Method)
    (upload : option (string * result json)) (all_questions : list Question) :
  let response := (import_view method upload all_questions).1 in
  let all_questions' := (import_view method upload all_questions).2 in
  (forall msg, response <> Raise (ValueError msg))
  /\ (all_questions' <> all_questions ->
      exists message, response = Ok (Redirect "index" (Some message)))
  /\ (forall message, response = Ok (Redirect "index" message) ->
      exists filename payload stats,
        method = POST /\ upload = Some (filename, Ok payload) /\ filename <> ""
        /\ import_questions all_questions payload = (Ok stats, all_questions'))
  /\ (forall filename payload msg,
        method = POST -> upload = Some (filename, payload) -> filename <> "" ->
        payload = Raise (ValueError msg)
        \/ (exists raw_data, payload = Ok raw_data
              /\ (import_questions all_questions raw_data).1 = Raise (ValueError msg)) ->
        response = Ok (Redirect "import_view"
                         (Some ("Failed to import questions: " +:+ msg)))
        /\ all_questions' = all_questions).
Proof.
  cbv zeta. unfold import_view.
  destruct method; [by split_and!|].
  destruct upload as [[filename parsed]|]; [|by split_and!].
  destruct (String.eqb_spec filename "") as [->|Hname].
  { split_and!; [done | done | done |]. by intros ? ? ? _ [= <- _]. }
  destruct parsed as [payload|e].
  - pose proof (import_questions_Raise all_questions payload) as Hraise.
    destruct (import_questions all_questions payload) as [[stats|e] store'] eqn:E.
    + cbn [fst snd] in *. split_and!.
      * done.
      * intros _. eauto.
      * intros message _. by exists filename, payload, stats.
      * intros ? ? msg _ [= <- <-] _ [?|(raw & [= <-] & Hr)]; [done|].
        rewrite E in Hr. done.
    + cbn [fst snd] in Hraise. specialize (Hraise e eq_refl). subst store'.
      destruct e as [msg'| |]; cbn [fst snd]; (split_and!; [done | done | done |]).
      * intros ? ? msg _ [= <- <-] _ [?|(raw & [= <-] & Hr)]; [done|].
        rewrite E in Hr. cbn [fst] in Hr. by injection Hr as ->.
      * intros ? ? msg _ [= <- <-] _ [?|(raw & [= <-] & Hr)]; [done|].
        rewrite E in Hr. done.
      * intros ? ? msg _ [= <- <-] _ [?|(raw & [= <-] & Hr)]; [done|].
        rewrite E in Hr. done.
  - destruct e as [msg'| |]; cbn [fst snd]; (split_and!; [done | done | done |]).
    + intros ? ? msg _ [= <- <-] _ [[= ->]|(raw & ? & _)]; done.
    + intros ? ? msg _ [= <- <-] _ [?|(raw & ? & _)]; done.
    + intros ? ? msg _ [= <- <-] _ [?|(raw & ? & _)]; done.
Qed.

(** ** Submission and review together *)

Lemma elem_of_review_questions (all_questions : list Question)
    (wrong_answers : list WrongAnswer) (q : Question) :
  q ∈ review_questions all_questions wrong_answers <->
  q ∈ all_questions /\ record_of wrong_answers (q_id q) <> None.
Proof.
  unfold review_questions, record_of, Dict.mem.
  rewrite list_elem_of_In, filter_In, <- list_elem_of_In.
  destruct (Dict.find _ _); naive_solver.
Qed.

(** The review pool after a submission.  For a test whose questions have
    distinct ids and integer selections, a stored question is in the review
    pool afterwards exactly when the submission marked it incorrect, or it
    was not part of the test and was in the pool before: a correct answer
    takes a question out of the pool, a wrong one puts it in. *)
Theorem review_pool_after_submit (clock : nat -> string) (form : Form)
    (all_questions : list Question) (wrong_answers : list WrongAnswer)
    (sess : Session) (test : TestSession) :
  current_test sess = Some test ->
  NoDup (q_id <$> questions test) ->
  (forall q, q ∈ questions test ->
     exists ns, ints_of (form_getlist form ("q_" +:+ q_id q)) = Ok ns) ->
  exists wrong_answers' res sess',
    submit_test clock form wrong_answers sess
    = (Ok (Redirect "show_results" None), wrong_answers', sess')
    /\ last_results sess' = Some res
    /\ forall q, q ∈ all_questions ->
         (q ∈ review_questions all_questions wrong_answers' <->
          (exists row, row ∈ results res
                       /\ q_id (row_question row) = q_id q
                       /\ row_is_correct row = false)
          \/ (q_id q ∉ q_id <$> questions test
              /\ q ∈ review_questions all_questions wrong_answers)).
Proof.
  intros Htest Hnd Hints.
  destruct (submit_loop_store clock form (questions test) Hnd Hints O wrong_answers [] O)
    as (rows & correct & wrong' & Hloop & Hlen & Hrows & Hother).
  unfold submit_test. rewrite Htest, Hloop. cbn [app].
  eexists wrong', _, _. split; [reflexivity|]. split; [reflexivity|].
  cbn [results]. intros q Hq. rewrite !elem_of_review_questions. split.
  - intros [_ Hrec].
    destruct (decide (q_id q ∈ q_id <$> questions test)) as [Hin|Hout].
    + left. apply list_elem_of_fmap in Hin as (q0 & Hid & Hq0).
      apply list_elem_of_lookup in Hq0 as [i Hi].
      destruct (Hrows i q0 Hi) as (row & Hrow & Hrq & _ & _ & Hr).
      exists row. split_and!; [by eapply list_elem_of_lookup_2 | by rewrite Hrq |].
      rewrite Hid, Hr in Hrec. by destruct (row_is_correct row).
    + right. rewrite <- (Hother _ Hout). done.
  - intros [(row & Hrow & Hid & Hfalse)|[Hout [_ Hrec]]].
    + split; [done|].
      apply list_elem_of_lookup in Hrow as [i Hi].
      assert (Hlt : (i < length (questions test))%nat)
        by (rewrite <- Hlen; by eapply lookup_lt_Some).
      apply lookup_lt_is_Some in Hlt as [q0 Hq0].
      destruct (Hrows i q0 Hq0) as (row' & Hrow' & Hrq & _ & _ & Hr).
      assert (row' = row) as -> by congruence.
      rewrite <- Hid, Hrq, Hr, Hfalse. done.
    + split; [done|]. by rewrite (Hother _ Hout).
Qed.

Lemma review_pool_after_submit_example :
  let qa := mkQuestion "a" "Q1" ["x"; "y"] [0] "General" "" in
  let qb := mkQuestion "b" "Q2" ["x"; "y"] [1] "General" "" in
  let qc := mkQuestion "c" "Q3" ["x"; "y"] [1] "General" "" in
  let test := {| questions := [qa; qb]; timestamp := "t"; mode := standard |} in
  let sess := {| current_test := Some test; last_results := None |} in
  let form := [("q_a", "0"); ("q_b", "0")] in
  let wrong := [mkWrong "a" 2 "t0" [1]; mkWrong "c" 1 "t0" [0]] in
  let clock := fun i => match i with O => "t1" | _ => "t2" end in
  exists wrong' sess',
    submit_test clock form wrong sess
    = (Ok (Redirect "show_results" None), wrong', sess')
    /\ review_questions [qa; qb; qc] wrong' = [qb; qc].
Proof.
  intros qa qb qc test sess form wrong clock.
  destruct (review_pool_after_submit clock form [qa; qb; qc] wrong sess test eq_refl)
    as (wrong' & res & sess' & Hsubmit & _ & _).
  - by apply (bool_decide_unpack _).
  - intros q [->|Hq]%elem_of_cons.
    + exists [0]. by vm_compute.
    + apply list_elem_of_singleton in Hq as ->. exists [0]. by vm_compute.
  - exists wrong', sess'. split; [done|].
    assert (Hc : (submit_test clock form wrong sess).1.2
                 = [mkWrong "c" 1 "t0" [0]; mkWrong "b" 1 "t2" [0]])
      by (by vm_compute).
    rewrite Hsubmit in Hc. cbn [fst snd] in Hc. rewrite Hc. by vm_compute.
Defined.

(** ** A submission that fails part-way *)

Lemma ints_of_invalid (selected_indices : list string) (choice : string) :
  choice ∈ selected_indices -> Py.int choice = None ->
  exists msg, ints_of selected_indices = Raise (ValueError msg).
Proof.
  intros Hin Hbad. induction selected_indices as [|c rest IH]; [by inversion Hin|].
  cbn [ints_of]. destruct (Py.int c) as [n|] eqn:Hc; [|eauto].
  apply elem_of_cons in Hin as [->|Hin]; [congruence|].
  destruct (IH Hin) as [msg ->]. eauto.
Qed.

Lemma selected_of_invalid (form : Form) (question : Question) (choice : string) :
  choice ∈ form_getlist form ("q_" +:+ q_id question) -> Py.int choice = None ->
  exists msg, selected_of form question = Raise (ValueError msg).
Proof.
  intros Hin Hbad. unfold selected_of.
  destruct (ints_of_invalid _ _ Hin Hbad) as [msg Hmsg].
  destruct (form_getlist _ _) as [|c rest]; [by inversion Hin|].
  rewrite Hmsg. eauto.
Qed.

Lemma submit_loop_app (clock : nat -> string) (form : Form) (qs1 qs2 : list Question) :
  forall turn wrong_answers rows correct,
    submit_loop clock form (qs1 ++ qs2) turn wrong_answers rows correct
    = match submit_loop clock form qs1 turn wrong_answers rows correct with
      | (Ok (rows', correct'), wrong_answers') =>
          submit_loop clock form qs2 (turn + length qs1) wrong_answers' rows' correct'
      | (Raise e, wrong_answers') => (Raise e, wrong_answers')
      end.
Proof.
  induction qs1 as [|q qs1 IH]; intros turn wrong_answers rows correct.
  - cbn [app submit_loop length]. by rewrite Nat.add_0_r.
  - cbn [app submit_loop length]. destruct (selected_of form q); [|done].
    rewrite IH. by rewrite Nat.add_succ_r.
Qed.

(** [submit_test] is not atomic.  When a submitted value of some question
    is not an integer literal, the [ValueError] of [int] leaves the view and
    the test stays active, but the questions before it have already been
    scored: each of them has a wrong-answer record exactly when its
    selection differs from its correct answers, written with the time read
    at its own turn, and no other record is touched. *)
Theorem submit_aborts_midway (clock : nat -> string) (form : Form)
    (wrong_answers : list WrongAnswer) (sess : Session) (test : TestSession)
    (answered rest : list Question) (question : Question) (choice : string) :
  current_test sess = Some test ->
  questions test = answered ++ question :: rest ->
  NoDup (q_id <$> answered) ->
  (forall q, q ∈ answered ->
     exists ns, ints_of (form_getlist form ("q_" +:+ q_id q)) = Ok ns) ->
  choice ∈ form_getlist form ("q_" +:+ q_id question) ->
  Py.int choice = None ->
  exists msg wrong_answers',
    submit_test clock form wrong_answers sess
    = (Raise (ValueError msg), wrong_answers', sess)
    /\ (forall i q, answered !! i = Some q ->
          exists selected,
            selected_of form q = Ok selected
            /\ (record_of wrong_answers' (q_id q) = None <->
                selected = Py.sorted (q_correct_answers q))
            /\ (selected <> Py.sorted (q_correct_answers q) ->
                exists r, record_of wrong_answers' (q_id q) = Some r
                          /\ last_answer r = selected
                          /\ last_attempt r = clock i))
    /\ (forall k, k ∉ q_id <$> answered ->
          record_of wrong_answers' k = record_of wrong_answers k).
Proof.
  intros Htest Hqs Hnd Hints Hin Hbad.
  destruct (selected_of_invalid form question choice Hin Hbad) as [msg Hmsg].
  destruct (submit_loop_store clock form answered Hnd Hints O wrong_answers [] O)
    as (rows & correct & wrong' & Hloop & _ & Hrows & Hother).
  exists msg, wrong'. split_and!.
  - unfold submit_test. rewrite Htest, Hqs, submit_loop_app, Hloop.
    cbn [submit_loop]. by rewrite Hmsg.
  - intros i q Hq.
    destruct (Hrows i q Hq) as (row & _ & _ & Hsel & Hok & Hr).
    exists (row_selected row). split; [done|]. rewrite Hr, Hok. unfold is_correct.
    cbn [Nat.add]. split.
    + case_bool_decide; naive_solver.
    + intros Hne. rewrite bool_decide_eq_false_2 by done. eauto.
  - done.
Qed.

Lemma submit_aborts_midway_example :
  let qa := mkQuestion "a" "Q1" ["x"; "y"] [0] "General" "" in
  let qb := mkQuestion "b" "Q2" ["x"; "y"] [1] "General" "" in
  let qc := mkQuestion "c" "Q3" ["x"; "y"] [1] "General" "" in
  let test := {| questions := [qa; qb; qc]; timestamp := "t"; mode := standard |} in
  let sess := {| current_test := Some test; last_results := None |} in
  let form := [("q_a", "1"); ("q_b", "0"); ("q_c", "one")] in
  let clock := fun i => match i with O => "t1" | _ => "t2" end in
  exists msg wrong',
    submit_test clock form [] sess = (Raise (ValueError msg), wrong', sess)
    /\ wrong' = [mkWrong "a" 1 "t1" [1]; mkWrong "b" 1 "t2" [0]].
Proof.
  intros qa qb qc test sess form clock.
  destruct (submit_aborts_midway clock form [] sess test [qa; qb] [] qc "one"
              eq_refl eq_refl)
    as (msg & wrong' & Hsubmit & _).
  - by apply (bool_decide_unpack _).
  - intros q [->|Hq]%elem_of_cons; [exists [1]; by vm_compute|].
    apply list_elem_of_singleton in Hq as ->. exists [0]. by vm_compute.
  - by apply (bool_decide_unpack _).
  - by vm_compute.
  - exists msg, wrong'. split; [done|].
    assert (Hc : (submit_test clock form [] sess).1.2
                 = [mkWrong "a" 1 "t1" [1]; mkWrong "b" 1 "t2" [0]])
      by (by vm_compute).
    by rewrite Hsubmit in Hc.
Defined.
